(** * Accordion: a shallow embedding of [shared/ts/components/accordion.ts]

    The widget links a sequence of controllers (buttons) to a sequence of
    containers (sections) below one root element and drives the attributes
    [aria-expanded], [aria-disabled] and [hidden].  The document is a shared
    store of elements addressed by reference; every function of the class is
    a function over that store, in the order in which the source reads and
    writes it. *)

From Stdlib Require Import Ascii String.
From stdpp Require Import gmap strings list fin_maps.

Local Open Scope string_scope.
Local Open Scope list_scope.
Set Warnings "-register-all".

(** * The class and its surroundings *)

(** ** The document *)


(** An element reference.  Two handles are the same element ([===]) exactly
    when they are the same number. *)
Definition node := nat.

(** What the widget can observe of an element: its attributes and the tokens
    of its [classList]. *)
Record Element := mkElement {
  attributes : gmap string string;
  classList : list string
}.

Definition blank : Element := mkElement ∅ [].

(** The store of elements.  A reference the store does not list denotes an
    element without attributes and without classes. *)
Abbreviation DOM := (gmap node Element).

Definition element (d : DOM) (n : node) : Element := default blank (d !! n).

Definition getAttribute (d : DOM) (n : node) (a : string) : option string :=
  attributes (element d n) !! a.

Definition hasAttribute (d : DOM) (n : node) (a : string) : bool :=
  match getAttribute d n a with Some _ => true | None => false end.

Definition setAttribute (n : node) (a v : string) (d : DOM) : DOM :=
  <[n := mkElement (<[a := v]> (attributes (element d n))) (classList (element d n))]> d.

Definition removeAttribute (n : node) (a : string) (d : DOM) : DOM :=
  <[n := mkElement (delete a (attributes (element d n))) (classList (element d n))]> d.

(** [element.id]: the [id] attribute, the empty string when it is absent. *)
Definition id_of (d : DOM) (n : node) : string := default "" (getAttribute d n "id").

(** [s === attr] where [attr] comes from [getAttribute] ([null] when absent). *)
Definition strictEq (s : string) (attr : option string) : bool :=
  match attr with Some t => bool_decide (s = t) | None => false end.

Definition hasClass (d : DOM) (cls : string) (n : node) : bool :=
  bool_decide (cls ∈ classList (element d n)).

Definition classList_add (n : node) (cls : string) (d : DOM) : DOM :=
  let e := element d n in
  if bool_decide (cls ∈ classList e) then d
  else <[n := mkElement (attributes e) (classList e ++ [cls])]> d.

Definition classList_remove (n : node) (cls : string) (d : DOM) : DOM :=
  let e := element d n in
  <[n := mkElement (attributes e) (List.filter (λ t, negb (bool_decide (t = cls))) (classList e))]> d.

(** The tree of the document gives the structure that the selectors walk;
    the widget never changes it. *)
Inductive Tree := Node (ref : node) (children : list Tree).

Definition ref_of (t : Tree) : node := match t with Node n _ => n end.
Definition children_of (t : Tree) : list Tree := match t with Node _ ks => ks end.

(** All elements of a tree in document order, each with its subtree. *)
Fixpoint subtrees (t : Tree) : list Tree :=
  match t with Node _ ks => t :: flat_map subtrees ks end.

Definition descendants (t : Tree) : list Tree := flat_map subtrees (children_of t).

(** The class selectors [".name"], the only ones the widget uses. *)
Definition matchesSelector (d : DOM) (selector : string) (n : node) : bool :=
  match selector with
  | String "."%char cls => hasClass d cls n
  | _ => false
  end.

(** [document.querySelector(selector)]: the first element of the document
    that matches, [None] for [null]. *)
Definition querySelector (d : DOM) (doc : Tree) (selector : string) : option Tree :=
  List.find (λ t, matchesSelector d selector (ref_of t)) (subtrees doc).

(** [element.querySelectorAll(selector)]: the descendants that match, in
    document order. *)
Definition querySelectorAll (d : DOM) (t : Tree) (selector : string) : list Tree :=
  List.filter (λ t, matchesSelector d selector (ref_of t)) (descendants t).

(** [enumerateElements] of [utils/html]: [[].slice.call(elements)]. *)
Definition enumerateElements (elements : list Tree) : list node := map ref_of elements.

(** ** The widget and its world *)

Record Accordion := mkAccordion {
  root : node;
  controllers : list node;
  containers : list node
}.

(** The two diagnostics that the class writes with [console.error], with the
    offending element. *)
Inductive Diagnostic :=
| ControllerMismatch (controller : node)
| ContainerMismatch (container : node).

Inductive EventType := focus_ev | blur_ev | click_ev | keydown_ev.

(** The functions the class binds as listeners. *)
Inductive Handler :=
| ActivateRoot
| DeactivateRoot
| UpdateContainer (controller : node)
| NavigateController (controller : node).

Record World := mkWorld {
  document : DOM;
  console : list Diagnostic;
  listeners : list (node * EventType * Handler)
}.

(** ** A state monad over the world *)

Definition M (A : Type) : Type := World → A * World.

Definition ret {A} (a : A) : M A := λ σ, (a, σ).

Definition bind {A B} (m : M A) (f : A → M B) : M B :=
  λ σ, let (a, σ') := m σ in f a σ'.

Notation "'let!' x ':=' m 'in' k" := (bind m (fun x => k))
  (at level 10, x name, m at level 100, k at level 200).
Notation "m '>>' k" := (bind m (fun _ => k))
  (at level 100, k at level 200, right associativity).

Definition readDOM : M DOM := λ σ, (document σ, σ).

Definition writeDOM (f : DOM → DOM) : M unit :=
  λ σ, (tt, mkWorld (f (document σ)) (console σ) (listeners σ)).

Definition console_error (e : Diagnostic) : M unit :=
  λ σ, (tt, mkWorld (document σ) (console σ ++ [e]) (listeners σ)).

Definition addEventListener (n : node) (ty : EventType) (h : Handler) : M unit :=
  λ σ, (tt, mkWorld (document σ) (console σ) (listeners σ ++ [(n, ty, h)])).

Definition when (b : bool) (m : M unit) : M unit := if b then m else ret tt.

Fixpoint forEach {A} (l : list A) (f : A → M unit) : M unit :=
  match l with
  | [] => ret tt
  | x :: l' => f x >> forEach l' f
  end.

Definition exec {A} (m : M A) (σ : World) : World := (m σ).2.
Definition eval {A} (m : M A) (σ : World) : A := (m σ).1.

(** ** Queries: no side effects, functions of the current document *)

Definition isControllerExpanded (d : DOM) (controller : node) : bool :=
  bool_decide (getAttribute d controller "aria-expanded" = Some "true").

Definition isControllerDisabled (d : DOM) (controller : node) : bool :=
  bool_decide (getAttribute d controller "aria-disabled" = Some "true").

Definition getActiveContainers (w : Accordion) (d : DOM) : list node :=
  List.filter (λ container, negb (hasAttribute d container "hidden")) (containers w).

Definition getActiveControllers (w : Accordion) (d : DOM) : list node :=
  List.filter (λ controller, isControllerExpanded d controller) (controllers w).

Definition allowManyContainers (w : Accordion) (d : DOM) : bool :=
  hasAttribute d (root w) "data-accordion-many-containers".

Definition willToggle (w : Accordion) (d : DOM) : bool :=
  let manyContainers := allowManyContainers w d in
  if manyContainers then manyContainers
  else hasAttribute d (root w) "data-accordion-toggle".

Definition getContainerByController (w : Accordion) (d : DOM) (controller : node)
  : option node :=
  List.find (λ container, strictEq (id_of d container) (getAttribute d controller "aria-controls"))
    (containers w).

(** ** Validation: a boolean, and a diagnostic on failure *)

Definition isContainer (w : Accordion) (container : node) : M bool :=
  let! d := readDOM in
  let result :=
    existsb (λ controller, strictEq (id_of d controller) (getAttribute d container "aria-labelledby"))
      (controllers w) in
  when (negb result) (console_error (ContainerMismatch container)) >>
  ret result.

Definition isController (w : Accordion) (controller : node) : M bool :=
  let! d := readDOM in
  let result :=
    existsb (λ container, strictEq (id_of d container) (getAttribute d controller "aria-controls"))
      (containers w) in
  when (negb result) (console_error (ControllerMismatch controller)) >>
  ret result.

(** ** Activation, deactivation and the toggle *)

(** When [isController] has answered [true], [getContainerByController] finds
    a container (same predicate, same document); the [None] branch stands for
    the [undefined] that cannot occur there (lemma [isController_finds]). *)
Definition activateContainerByController (controller : node) (w : Accordion) : M unit :=
  let! ok := isController w controller in
  when ok (
    let! d := readDOM in
    match getContainerByController w d controller with
    | None => ret tt
    | Some container =>
        let! ok' := isContainer w container in
        when ok' (
          writeDOM (setAttribute controller "aria-expanded" "true") >>
          writeDOM (removeAttribute container "hidden") >>
          let! d' := readDOM in
          when (negb (willToggle w d'))
            (writeDOM (setAttribute controller "aria-disabled" "true")))
    end).

Definition deactivateContainerByController (controller : node) (w : Accordion) : M unit :=
  let! ok := isController w controller in
  when ok (
    let! d := readDOM in
    match getContainerByController w d controller with
    | None => ret tt
    | Some container =>
        let! ok' := isContainer w container in
        when ok' (
          writeDOM (setAttribute controller "aria-expanded" "false") >>
          writeDOM (setAttribute container "hidden" "") >>
          let! d' := readDOM in
          when (negb (willToggle w d'))
            (writeDOM (removeAttribute controller "aria-disabled")))
    end).

(** The first statement of [updateContainerByController]: without
    [data-accordion-many-containers], every expanded controller other than
    the argument is deactivated.  The array of the others is computed before
    the first deactivation. *)
Definition collapseOthers (w : Accordion) (controller : node) : M unit :=
  let! d := readDOM in
  when (negb (allowManyContainers w d)) (
    forEach
      (List.filter (λ activeController, negb (bool_decide (activeController = controller)))
         (getActiveControllers w d))
      (λ controller', deactivateContainerByController controller' w)).

(** The toggle operation. *)
Definition updateContainerByController (w : Accordion) (controller : node) : M unit :=
  collapseOthers w controller >>
  let! d := readDOM in
  if negb (isControllerExpanded d controller) then
    activateContainerByController controller w
  else if willToggle w d && isControllerExpanded d controller then
    deactivateContainerByController controller w
  else ret tt.

(** ** Root focus state *)

Definition activateRoot (w : Accordion) : M unit :=
  writeDOM (classList_add (root w) "accordion--is-focused").

Definition deactivateRoot (w : Accordion) : M unit :=
  writeDOM (classList_remove (root w) "accordion--is-focused").

(** ** Initialization *)

Definition manageRootEvents (controller : node) (w : Accordion) : M unit :=
  addEventListener controller focus_ev ActivateRoot >>
  addEventListener controller blur_ev DeactivateRoot.

Definition manageControllerEvents (controller : node) (w : Accordion) : M unit :=
  addEventListener controller click_ev (UpdateContainer controller) >>
  addEventListener controller keydown_ev (NavigateController controller).

Definition processControllerEvents (w : Accordion) : M unit :=
  forEach (controllers w) (λ controller,
    manageRootEvents controller w >> manageControllerEvents controller w).

(** The callback of the [filter] in [defaultContainersByControllers]. *)
Definition defaultsToCollapsed (d : DOM) (controller : node) : bool :=
  negb (hasAttribute d controller "aria-expanded")
  || bool_decide (getAttribute d controller "aria-expanded" = Some "false").

Definition defaultContainersByControllers (w : Accordion) : M unit :=
  let! d := readDOM in
  forEach (List.filter (defaultsToCollapsed d) (controllers w))
    (λ controller, deactivateContainerByController controller w).

Definition initialize (w : Accordion) : M unit :=
  processControllerEvents w >> defaultContainersByControllers w.

(** ** Construction *)

(** A call either returns or throws the [TypeError] of a property read on
    [null] or [undefined]. *)
Inductive Result (A : Type) :=
| Ok (a : A)
| TypeError.
Arguments Ok {A} a.
Arguments TypeError {A}.

(** [root ?? document.querySelector(".accordion")]. *)
Definition resolveRoot (d : DOM) (doc : Tree) (given : option Tree) : option Tree :=
  match given with
  | Some t => Some t
  | None => querySelector d doc ".accordion"
  end.

(** [new Accordion(root)] in the document [doc].  With no root the call
    [this.root.querySelectorAll] reads a property of [null]. *)
Definition constructor (given : option Tree) (doc : Tree) : M (Result Accordion) :=
  let! d := readDOM in
  match resolveRoot d doc given with
  | None => ret TypeError
  | Some r =>
      let w := mkAccordion (ref_of r)
                 (enumerateElements (querySelectorAll d r ".accordion__button"))
                 (enumerateElements (querySelectorAll d r ".accordion__section")) in
      initialize w >> ret (Ok w)
  end.

(** ** Keyboard navigation *)

Record KeyboardEvent := mkKey { key : string; ctrlKey : bool }.

(** [String.prototype.toLowerCase] on the letters A to Z.  The handler only
    compares the result with words over a to z that have no letter k, and no
    other character lower-cases to one of those letters. *)
Definition lowerAscii (c : ascii) : ascii :=
  let n := nat_of_ascii c in
  if (65 <=? n)%nat && (n <=? 90)%nat then ascii_of_nat (n + 32) else c.

Fixpoint toLowerCase (s : string) : string :=
  match s with
  | EmptyString => EmptyString
  | String c s' => String (lowerAscii c) (toLowerCase s')
  end.

Fixpoint includes (needle hay : string) : bool :=
  String.prefix needle hay ||
  match hay with
  | EmptyString => false
  | String _ hay' => includes needle hay'
  end.

(** [s.match(/word/i)] for a lower-case [word] of letters, as a boolean. *)
Definition matchIgnoreCase (word s : string) : bool := includes word (toLowerCase s).

Definition isKeyup (event : KeyboardEvent) : bool :=
  let key := toLowerCase (key event) in
  (ctrlKey event && bool_decide (key = "pageup"))
  || bool_decide (key = "arrowup")
  || bool_decide (key = "up").

Definition isKeydown (event : KeyboardEvent) : bool :=
  let key := toLowerCase (key event) in
  (ctrlKey event && bool_decide (key = "pagedown"))
  || bool_decide (key = "arrowdown")
  || bool_decide (key = "down").

(** [array[i]] for an integer index: [None] is [undefined]. *)
Definition at_index (l : list node) (i : Z) : option node :=
  if (i <? 0)%Z then None else l !! Z.to_nat i.

(** [array.indexOf(x)]: the first index holding [x], or -1. *)
Definition indexOf (l : list node) (x : node) : Z :=
  match list_find (λ y, y = x) l with
  | Some (i, _) => Z.of_nat i
  | None => (-1)%Z
  end.

Definition getFirstController (w : Accordion) : option node :=
  at_index (controllers w) 0.

Definition getLastController (w : Accordion) : option node :=
  at_index (controllers w) (Z.of_nat (length (controllers w)) - 1).

Definition getNextController (controller : node) (w : Accordion) : option node :=
  let index := (indexOf (controllers w) controller + 1)%Z in
  if (index <=? Z.of_nat (length (controllers w)) - 1)%Z
  then at_index (controllers w) index
  else getFirstController w.

Definition getPrevController (controller : node) (w : Accordion) : option node :=
  let index := (indexOf (controllers w) controller - 1)%Z in
  if (0 <=? index)%Z
  then at_index (controllers w) index
  else getLastController w.

(** What a key handler does to its surroundings, in order. *)
Inductive Action :=
| PreventDefault
| Focus (target : node)
| Throws.

(** [target.focus()] followed by the rest of the handler; on [undefined] the
    call throws and the rest does not run. *)
Definition focusThen (target : option node) (rest : list Action) : list Action :=
  match target with
  | Some n => Focus n :: rest
  | None => [Throws]
  end.

Definition navigateControllerEvent (controller : node) (w : Accordion)
    (event : KeyboardEvent) : list Action :=
  let onEnd :=
    if matchIgnoreCase "end" (key event)
    then PreventDefault :: focusThen (getLastController w) []
    else [] in
  let onHome :=
    if matchIgnoreCase "home" (key event)
    then PreventDefault :: focusThen (getFirstController w) onEnd
    else onEnd in
  let onDown :=
    if isKeydown event
    then PreventDefault :: focusThen (getNextController controller w) onHome
    else onHome in
  if isKeyup event
  then PreventDefault :: focusThen (getPrevController controller w) onDown
  else onDown.

(** ** The page script [app.ts]: the two switches on the root *)

Definition toggleAccordionToggleState (accordion : option node) (checked : bool) : M unit :=
  match accordion with
  | None => ret tt
  | Some r =>
      if checked then writeDOM (setAttribute r "data-accordion-toggle" "")
      else writeDOM (removeAttribute r "data-accordion-toggle")
  end.

Definition toggleAccordionContainerState (accordion : option node) (checked : bool) : M unit :=
  match accordion with
  | None => ret tt
  | Some r =>
      if checked then writeDOM (setAttribute r "data-accordion-many-containers" "")
      else writeDOM (removeAttribute r "data-accordion-many-containers")
  end.

(** ** The class as the second page bundle carries it *)

(** The same class as the second page bundle of the repository carries it:
    the root may be [null], the collections start empty and every access to
    the root is guarded. *)
Module Bundle.

Record Accordion := mkAccordion {
  root : option node;
  controllers : list node;
  containers : list node
}.

Definition allowManyContainers (w : Accordion) (d : DOM) : bool :=
  match root w with
  | Some r => hasAttribute d r "data-accordion-many-containers"
  | None => false
  end.

Definition willToggle (w : Accordion) (d : DOM) : bool :=
  let manyContainers := allowManyContainers w d in
  if manyContainers then manyContainers
  else match root w with
       | Some r => hasAttribute d r "data-accordion-toggle"
       | None => false
       end.

Definition activateRoot (w : Accordion) : M unit :=
  match root w with
  | Some r => writeDOM (classList_add r "accordion--is-focused")
  | None => ret tt
  end.

Definition deactivateRoot (w : Accordion) : M unit :=
  match root w with
  | Some r => writeDOM (classList_remove r "accordion--is-focused")
  | None => ret tt
  end.

Definition getContainerByController (w : Accordion) (d : DOM) (controller : node)
  : option node :=
  List.find (λ container, strictEq (id_of d container) (getAttribute d controller "aria-controls"))
    (containers w).

Definition isContainer (w : Accordion) (container : node) : M bool :=
  let! d := readDOM in
  let result :=
    existsb (λ controller, strictEq (id_of d controller) (getAttribute d container "aria-labelledby"))
      (controllers w) in
  when (negb result) (console_error (ContainerMismatch container)) >>
  ret result.

Definition isController (w : Accordion) (controller : node) : M bool :=
  let! d := readDOM in
  let result :=
    existsb (λ container, strictEq (id_of d container) (getAttribute d controller "aria-controls"))
      (containers w) in
  when (negb result) (console_error (ControllerMismatch controller)) >>
  ret result.

Definition deactivateContainerByController (controller : node) (w : Accordion) : M unit :=
  let! ok := isController w controller in
  when ok (
    let! d := readDOM in
    match getContainerByController w d controller with
    | None => ret tt
    | Some container =>
        let! ok' := isContainer w container in
        when ok' (
          writeDOM (setAttribute controller "aria-expanded" "false") >>
          writeDOM (setAttribute container "hidden" "") >>
          let! d' := readDOM in
          when (negb (willToggle w d'))
            (writeDOM (removeAttribute controller "aria-disabled")))
    end).

Definition processControllerEvents (w : Accordion) : M unit :=
  forEach (controllers w) (λ controller,
    (addEventListener controller focus_ev ActivateRoot >>
     addEventListener controller blur_ev DeactivateRoot) >>
    (addEventListener controller click_ev (UpdateContainer controller) >>
     addEventListener controller keydown_ev (NavigateController controller))).

Definition defaultContainersByControllers (w : Accordion) : M unit :=
  let! d := readDOM in
  forEach (List.filter (defaultsToCollapsed d) (controllers w))
    (λ controller, deactivateContainerByController controller w).

Definition initialize (w : Accordion) : M unit :=
  processControllerEvents w >> defaultContainersByControllers w.

Definition constructor (given : option Tree) (doc : Tree) : M Accordion :=
  let! d := readDOM in
  let w :=
    match resolveRoot d doc given with
    | Some r =>
        mkAccordion (Some (ref_of r))
          (enumerateElements (querySelectorAll d r ".accordion__button"))
          (enumerateElements (querySelectorAll d r ".accordion__section"))
    | None => mkAccordion None [] []
    end in
  initialize w >> ret w.

Definition activateContainerByController (controller : node) (w : Accordion) : M unit :=
  let! ok := isController w controller in
  when ok (
    let! d := readDOM in
    match getContainerByController w d controller with
    | None => ret tt
    | Some container =>
        let! ok' := isContainer w container in
        when ok' (
          writeDOM (setAttribute controller "aria-expanded" "true") >>
          writeDOM (removeAttribute container "hidden") >>
          let! d' := readDOM in
          when (negb (willToggle w d'))
            (writeDOM (setAttribute controller "aria-disabled" "true")))
    end).

Definition getActiveControllers (w : Accordion) (d : DOM) : list node :=
  List.filter (λ controller, isControllerExpanded d controller) (controllers w).

Definition updateContainerByController (w : Accordion) (controller : node) : M unit :=
  (let! d := readDOM in
   when (negb (allowManyContainers w d)) (
     forEach
       (List.filter (λ activeController, negb (bool_decide (activeController = controller)))
          (getActiveControllers w d))
       (λ controller', deactivateContainerByController controller' w))) >>
  let! d := readDOM in
  if negb (isControllerExpanded d controller) then
    activateContainerByController controller w
  else if willToggle w d && isControllerExpanded d controller then
    deactivateContainerByController controller w
  else ret tt.

End Bundle.

(** The widget of the guarded variant that has the same root and the same
    sequences as a widget of the source. *)
Definition rooted (w : Accordion) : Bundle.Accordion :=
  Bundle.mkAccordion (Some (root w)) (controllers w) (containers w).

(** The widget that the guarded variant builds when no root is found. *)
Definition inert : Bundle.Accordion := Bundle.mkAccordion None [] [].

(** * Vocabulary of the properties *)

(** ** The three attributes the widget writes, and the rest *)

Definition written (a : string) : Prop :=
  a = "aria-expanded" ∨ a = "aria-disabled" ∨ a = "hidden".

(** [d'] differs from [d] at most in the three written attributes. *)
Definition sameElsewhere (d d' : DOM) : Prop :=
  (∀ n a, ¬ written a → getAttribute d' n a = getAttribute d n a) ∧
  (∀ n, classList (element d' n) = classList (element d n)).

(** ** What one validation decides, and the document after each step

    The functions of this part describe the outcome of the monadic code
    above as functions of the document; the lemmas [deactivate_run],
    [activate_run], [forEach_deactivate_run], [collapseOthers_run] and
    [document_update] prove that the code computes them. *)

(** The boolean of [isController]. *)
Definition controllerMatches (w : Accordion) (d : DOM) (controller : node) : bool :=
  existsb (λ container, strictEq (id_of d container) (getAttribute d controller "aria-controls"))
    (containers w).

(** The boolean of [isContainer]. *)
Definition containerMatches (w : Accordion) (d : DOM) (container : node) : bool :=
  existsb (λ controller, strictEq (id_of d controller) (getAttribute d container "aria-labelledby"))
    (controllers w).

(** The container on which an activation or deactivation of [controller]
    acts, [None] when one of the two validations fails. *)
Definition validated (w : Accordion) (d : DOM) (controller : node) : option node :=
  if controllerMatches w d controller then
    match getContainerByController w d controller with
    | Some container => if containerMatches w d container then Some container else None
    | None => None
    end
  else None.

(** The diagnostics of one activation or deactivation of [controller]. *)
Definition diagnosed (w : Accordion) (d : DOM) (controller : node) : list Diagnostic :=
  if controllerMatches w d controller then
    match getContainerByController w d controller with
    | Some container =>
        if containerMatches w d container then [] else [ContainerMismatch container]
    | None => []
    end
  else [ControllerMismatch controller].

(** The document after the writes of a deactivation, and of an activation. *)
Definition deactivated (w : Accordion) (c k : node) (d : DOM) : DOM :=
  let d2 := setAttribute k "hidden" "" (setAttribute c "aria-expanded" "false" d) in
  if negb (willToggle w d2) then removeAttribute c "aria-disabled" d2 else d2.

Definition activated (w : Accordion) (c k : node) (d : DOM) : DOM :=
  let d2 := removeAttribute k "hidden" (setAttribute c "aria-expanded" "true" d) in
  if negb (willToggle w d2) then setAttribute c "aria-disabled" "true" d2 else d2.

Definition deactivate_dom (w : Accordion) (c : node) (d : DOM) : DOM :=
  match validated w d c with Some k => deactivated w c k d | None => d end.

Definition activate_dom (w : Accordion) (c : node) (d : DOM) : DOM :=
  match validated w d c with Some k => activated w c k d | None => d end.

Definition deactivate_all (w : Accordion) (l : list node) (d : DOM) : DOM :=
  foldl (λ d x, deactivate_dom w x d) d l.

Fixpoint diagnosed_all (w : Accordion) (l : list node) (d : DOM) : list Diagnostic :=
  match l with
  | [] => []
  | x :: l' => diagnosed w d x ++ diagnosed_all w l' (deactivate_dom w x d)
  end.

(** The controllers that [collapseOthers] deactivates. *)
Definition others (w : Accordion) (d : DOM) (c : node) : list node :=
  List.filter (λ activeController, negb (bool_decide (activeController = c)))
    (getActiveControllers w d).

Definition collapseOthers_dom (w : Accordion) (c : node) (d : DOM) : DOM :=
  if negb (allowManyContainers w d) then deactivate_all w (others w d c) d else d.

Definition toggle_dom (w : Accordion) (c : node) (d : DOM) : DOM :=
  let d1 := collapseOthers_dom w c d in
  if negb (isControllerExpanded d1 c) then activate_dom w c d1
  else if willToggle w d1 && isControllerExpanded d1 c then deactivate_dom w c d1
  else d1.

(** ** The loop of deactivations *)

(** How a run of deactivations of members of [L] can change the three
    written attributes of an element. *)
Definition collapses (w : Accordion) (L : list node) (d d' : DOM) : Prop :=
  sameElsewhere d d' ∧
  (∀ n, getAttribute d' n "aria-expanded" = getAttribute d n "aria-expanded"
        ∨ (n ∈ L ∧ getAttribute d' n "aria-expanded" = Some "false")) ∧
  (∀ n, getAttribute d' n "hidden" = getAttribute d n "hidden"
        ∨ (n ∈ containers w ∧ getAttribute d' n "hidden" = Some "")) ∧
  (∀ n, getAttribute d' n "aria-disabled" = getAttribute d n "aria-disabled"
        ∨ (n ∈ L ∧ willToggle w d = false ∧ getAttribute d' n "aria-disabled" = None)).

(** ** Pairing and identifiers *)

(** The pairing of the data model: the controller names the container and
    the container names the controller. *)
Definition paired (w : Accordion) (d : DOM) (c k : node) : Prop :=
  c ∈ controllers w ∧ k ∈ containers w ∧
  getAttribute d c "aria-controls" = Some (id_of d k) ∧
  getAttribute d k "aria-labelledby" = Some (id_of d c).

(** The identifiers of the elements of a sequence are pairwise different. *)
Definition uniqueIds (d : DOM) (l : list node) : Prop := NoDup (id_of d <$> l).

#[global] Instance uniqueIds_dec (d : DOM) (l : list node) : Decision (uniqueIds d l).
Proof. unfold uniqueIds. apply _. Defined.

(** The diagnostics of the second statement of a toggle, run on [d1]. *)
Definition own_log (w : Accordion) (c : node) (d1 : DOM) : list Diagnostic :=
  if negb (isControllerExpanded d1 c) then diagnosed w d1 c
  else if willToggle w d1 && isControllerExpanded d1 c then diagnosed w d1 c
  else [].

#[global] Instance paired_dec (w : Accordion) (d : DOM) (c k : node) :
  Decision (paired w d c k).
Proof. unfold paired. apply _. Defined.

(** A container is visible exactly when its paired controller is expanded,
    for every valid pair of the widget. *)
Definition coherent (w : Accordion) (d : DOM) : Prop :=
  Forall (λ c, Forall (λ k,
    paired w d c k →
    (hasAttribute d k "hidden" = false ↔ getAttribute d c "aria-expanded" = Some "true"))
    (containers w)) (controllers w).

#[global] Instance coherent_dec (w : Accordion) (d : DOM) : Decision (coherent w d).
Proof. unfold coherent. apply _. Defined.

(** Every controller of the widget that passes the two validations is
    validly paired with the container found for it. *)
Definition acceptsOnlyPairs (w : Accordion) (d : DOM) : bool :=
  forallb (λ c, match validated w d c with
                | Some k => bool_decide (paired w d c k)
                | None => true
                end) (controllers w).

(** A run of toggles on controllers of the widget. *)
Inductive toggles (w : Accordion) : World → World → Prop :=
| toggles_refl σ : toggles w σ σ
| toggles_step σ σ' c :
    toggles w σ σ' → c ∈ controllers w →
    toggles w σ (exec (updateContainerByController w c) σ').

(** Coherence of a later document [d], for the pairs of a first one [d0]. *)
Definition coh (w : Accordion) (d0 d : DOM) : Prop :=
  sameElsewhere d0 d ∧
  ∀ c k, paired w d0 c k →
         (hasAttribute d k "hidden" = false ↔ getAttribute d c "aria-expanded" = Some "true").

(** No element is both a controller and a container of the widget. *)
Definition apart (w : Accordion) : Prop :=
  Forall (λ c, c ∉ containers w) (controllers w).

#[global] Instance apart_dec (w : Accordion) : Decision (apart w).
Proof. unfold apart. apply _. Defined.

(** The attributes in which [d'] may differ from [d] after a toggle of [c]:
    [aria-expanded] and [aria-disabled] on [c] and on controllers of the
    widget, [hidden] on containers of the widget. *)
Definition writes_within (w : Accordion) (c : node) (d d' : DOM) : Prop :=
  ∀ n a, getAttribute d' n a ≠ getAttribute d n a →
         ((a = "aria-expanded" ∨ a = "aria-disabled") ∧ (n = c ∨ n ∈ controllers w))
         ∨ (a = "hidden" ∧ n ∈ containers w).

(** Relative to a first document [d0]: every valid pair has [aria-expanded]
    on its controller, and when that is ["false"] the [hidden] attribute of
    its container, if present, is the empty string the widget writes. *)
Definition settled (w : Accordion) (d0 d : DOM) : Prop :=
  sameElsewhere d0 d ∧
  ∀ c k, paired w d0 c k →
         getAttribute d c "aria-expanded" ≠ None
         ∧ (getAttribute d c "aria-expanded" = Some "false" →
            getAttribute d k "hidden" = None ∨ getAttribute d k "hidden" = Some "").

(** ** The claims that fail, as they are written *)

(** The single-open claim with its last clause as written: no two
    controllers of the widget are expanded after the toggle. *)
Definition single_open_as_stated (w : Accordion) (σ : World) (A KA B KB : node) : Prop :=
  uniqueIds (document σ) (controllers w) →
  uniqueIds (document σ) (containers w) →
  allowManyContainers w (document σ) = false →
  paired w (document σ) A KA → paired w (document σ) B KB →
  isControllerExpanded (document σ) A = true →
  isControllerExpanded (document σ) B = false →
  let d' := document (exec (updateContainerByController w B) σ) in
  getAttribute d' A "aria-expanded" = Some "false" ∧ hasAttribute d' KA "hidden" = true ∧
  getAttribute d' B "aria-expanded" = Some "true" ∧ hasAttribute d' KB "hidden" = false ∧
  ∀ x y, x ∈ controllers w → y ∈ controllers w → x ≠ y →
         ¬ (isControllerExpanded d' x = true ∧ isControllerExpanded d' y = true).

(** The claim as written: a validation failure is reported and no element
    changes. *)
Definition invalid_toggle_as_stated (w : Accordion) (σ : World) (c : node) : Prop :=
  c ∈ controllers w →
  controllerMatches w (document σ) c = false →
  let σ' := exec (updateContainerByController w c) σ in
  (∃ log, console σ' = console σ ++ log ∧ ControllerMismatch c ∈ log)
  ∧ ∀ n, element (document σ') n = element (document σ) n.

(** The claim as written: after construction, and after any run of toggles,
    every valid pair is coherent. *)
Definition visibility_as_stated (given : option Tree) (doc : Tree) (σ0 : World) : Prop :=
  ∀ w σ σ', constructor given doc σ0 = (Ok w, σ) → toggles w σ σ' →
            coherent w (document σ').

(** The claim as written: the deactivation removes [aria-disabled]. *)
Definition collapse_as_stated (w : Accordion) (σ : World) (c k : node) : Prop :=
  uniqueIds (document σ) (controllers w) →
  uniqueIds (document σ) (containers w) →
  paired w (document σ) c k →
  isControllerExpanded (document σ) c = true →
  willToggle w (document σ) = true →
  let d' := document (exec (updateContainerByController w c) σ) in
  getAttribute d' c "aria-expanded" = Some "false"
  ∧ hasAttribute d' k "hidden" = true
  ∧ hasAttribute d' c "aria-disabled" = false.

(** The claim as written: after the two toggles neither controller carries
    [aria-disabled]. *)
Definition many_open_as_stated (w : Accordion) (σ : World) (A KA B KB : node) : Prop :=
  uniqueIds (document σ) (controllers w) →
  uniqueIds (document σ) (containers w) →
  allowManyContainers w (document σ) = true →
  paired w (document σ) A KA → paired w (document σ) B KB → A ≠ B →
  isControllerExpanded (document σ) A = false →
  isControllerExpanded (document σ) B = false →
  let d' := document (exec (updateContainerByController w B)
                        (exec (updateContainerByController w A) σ)) in
  getAttribute d' A "aria-expanded" = Some "true" ∧ hasAttribute d' KA "hidden" = false ∧
  getAttribute d' B "aria-expanded" = Some "true" ∧ hasAttribute d' KB "hidden" = false ∧
  hasAttribute d' A "aria-disabled" = false ∧ hasAttribute d' B "aria-disabled" = false.

(** The claim as written: every validly paired controller whose
    [aria-expanded] is not ["true"] ends collapsed with its container
    hidden. *)
Definition default_collapse_as_stated (given : option Tree) (doc : Tree) (σ0 : World) : Prop :=
  ∀ w σ c k,
    constructor given doc σ0 = (Ok w, σ) →
    uniqueIds (document σ0) (controllers w) →
    uniqueIds (document σ0) (containers w) →
    paired w (document σ0) c k →
    getAttribute (document σ0) c "aria-expanded" ≠ Some "true" →
    getAttribute (document σ) c "aria-expanded" = Some "false"
    ∧ hasAttribute (document σ) k "hidden" = true.

(** The frame claim as written, for a toggle of any element. *)
Definition frame_as_stated (w : Accordion) (σ : World) (c : node) : Prop :=
  root w ∉ controllers w → root w ∉ containers w →
  let d := document σ in
  let d' := document (exec (updateContainerByController w c) σ) in
  (∀ n a, getAttribute d' n a ≠ getAttribute d n a →
          ((a = "aria-expanded" ∨ a = "aria-disabled") ∧ n ∈ controllers w)
          ∨ (a = "hidden" ∧ n ∈ containers w))
  ∧ (∀ n, id_of d' n = id_of d n
          ∧ getAttribute d' n "aria-controls" = getAttribute d n "aria-controls"
          ∧ getAttribute d' n "aria-labelledby" = getAttribute d n "aria-labelledby")
  ∧ element d' (root w) = element d (root w).

(** ** Sample pages *)

Module Sample.

Definition elem (attrs : list (string * string)) (classes : list string) : Element :=
  mkElement (list_to_map attrs) classes.

(** Root 0, controllers 1 and 2, containers 11 and 12, paired both ways. *)
Definition page (rootAttrs : list (string * string)) : DOM :=
  list_to_map [
    (0, elem rootAttrs ["accordion"]);
    (1, elem [("id", "c1"); ("aria-controls", "k1")] ["accordion__button"]);
    (11, elem [("id", "k1"); ("aria-labelledby", "c1")] ["accordion__section"]);
    (2, elem [("id", "c2"); ("aria-controls", "k2")] ["accordion__button"]);
    (12, elem [("id", "k2"); ("aria-labelledby", "c2")] ["accordion__section"])
  ].

Definition tree : Tree :=
  Node 100 [Node 0 [Node 1 []; Node 11 []; Node 2 []; Node 12 []]].

Definition world (d : DOM) : World := mkWorld d [] [].

Definition widget : Accordion := mkAccordion 0 [1; 2] [11; 12].

End Sample.

Module Stray.
Import Sample.

(** The sample page with a third button that is marked expanded in the
    markup and names a container that does not exist. *)
Definition markup : DOM :=
  <[3 := elem [("id", "c3"); ("aria-controls", "k9"); ("aria-expanded", "true")]
           ["accordion__button"]]> (page []).

Definition tree : Tree :=
  Node 100 [Node 0 [Node 1 []; Node 11 []; Node 2 []; Node 12 []; Node 3 []]].

Definition widget : Accordion := mkAccordion 0 [1; 2; 3] [11; 12].

(** The page after construction and a click on the first button. *)
Definition opened : World :=
  exec (updateContainerByController widget 1)
    (exec (constructor None tree) (world markup)).
End Stray.

Module StrayMany.
Import Sample.

(** The page with a third button that names a container that does not
    exist, in many-containers mode; the first button has been clicked. *)
Definition markup : DOM :=
  <[3 := elem [("id", "c3"); ("aria-controls", "k9")] ["accordion__button"]]>
    (page [("data-accordion-many-containers", "")]).

Definition opened : World :=
  exec (updateContainerByController Stray.widget 1)
    (exec (constructor None Stray.tree) (world markup)).
End StrayMany.

Module Bare.
(** A page with a single paragraph and no accordion. *)
Definition page : DOM := list_to_map [(1, Sample.elem [("id", "intro")] ["lead"])].
Definition tree : Tree := Node 100 [Node 1 []].
End Bare.

Module Preset.
Import Sample.

(** The sample page with the first button marked expanded in the markup
    while its section carries [hidden]. *)
Definition markup : DOM :=
  <[1 := elem [("id", "c1"); ("aria-controls", "k1"); ("aria-expanded", "true")]
           ["accordion__button"]]>
  (<[11 := elem [("id", "k1"); ("aria-labelledby", "c1"); ("hidden", "")]
           ["accordion__section"]]> (page [])).

(** The world after construction. *)
Definition loaded : World := exec (constructor None tree) (world markup).
End Preset.

Module Shared.
Import Sample.

(** Two buttons that name the same section, which is labelled by the
    first. *)
Definition markup : DOM :=
  list_to_map [
    (0, elem [] ["accordion"]);
    (1, elem [("id", "c1"); ("aria-controls", "k1")] ["accordion__button"]);
    (3, elem [("id", "c3"); ("aria-controls", "k1")] ["accordion__button"]);
    (11, elem [("id", "k1"); ("aria-labelledby", "c1")] ["accordion__section"])
  ].

Definition tree : Tree := Node 100 [Node 0 [Node 1 []; Node 3 []; Node 11 []]].

Definition widget : Accordion := mkAccordion 0 [1; 3] [11].

Definition loaded : World := exec (constructor None tree) (world markup).
End Shared.

Module Switched.
Import Sample.

(** The sample page without flags: the first button is clicked, which
    expands and disables it; then the page script sets
    [data-accordion-toggle] on the root. *)
Definition toggleOn : World :=
  exec (toggleAccordionToggleState (Some (root widget)) true)
    (exec (updateContainerByController widget 1)
       (exec (constructor None tree) (world (page [])))).

(** The first button is clicked again, which collapses it, and the page
    script sets [data-accordion-many-containers]. *)
Definition manyOn : World :=
  exec (toggleAccordionContainerState (Some (root widget)) true)
    (exec (updateContainerByController widget 1) toggleOn).
End Switched.

Module Valueless.
Import Sample.

(** The sample page with [aria-expanded] present without a value on the
    first button. *)
Definition markup : DOM :=
  <[1 := elem [("id", "c1"); ("aria-controls", "k1"); ("aria-expanded", "")]
           ["accordion__button"]]> (page []).

Definition loaded : World := exec (constructor None tree) (world markup).
End Valueless.

Module Foreign.
Import Sample.

(** The sample page with a button outside the root that names the first
    section. *)
Definition markup : DOM :=
  <[4 := elem [("id", "x4"); ("aria-controls", "k1")] ["menu__button"]]> (page []).

Definition tree : Tree :=
  Node 100 [Node 0 [Node 1 []; Node 11 []; Node 2 []; Node 12 []]; Node 4 []].

Definition loaded : World := exec (constructor None tree) (world markup).
End Foreign.

(** What an observer sees of a controller: [aria-expanded] and
    [aria-disabled]. *)
Definition controllerState (σ : World) (c : node) : option string * option string :=
  (getAttribute (document σ) c "aria-expanded", getAttribute (document σ) c "aria-disabled").

(** Clicks on controllers, in order. *)
Definition clicks (w : Accordion) (l : list node) : M unit :=
  forEach l (updateContainerByController w).

(** ** Vocabulary of the further properties *)

(** The four listeners that initialization binds on one controller. *)
Definition listenersOf (controller : node) : list (node * EventType * Handler) :=
  [(controller, focus_ev, ActivateRoot);
   (controller, blur_ev, DeactivateRoot);
   (controller, click_ev, UpdateContainer controller);
   (controller, keydown_ev, NavigateController controller)].

(** Every controller of the widget passes both validations. *)
Definition allValidated (w : Accordion) (d : DOM) : Prop :=
  Forall (λ c, is_Some (validated w d c)) (controllers w).

#[global] Instance allValidated_dec (w : Accordion) (d : DOM) : Decision (allValidated w d).
Proof. unfold allValidated. apply _. Defined.

(** The same attributes and classes on every element. *)
Definition sameElements (d d' : DOM) : Prop :=
  (∀ n a, getAttribute d' n a = getAttribute d n a)
  ∧ (∀ n, classList (element d' n) = classList (element d n)).

(** One of the four tests of the key handler holds. *)
Definition handled (event : KeyboardEvent) : bool :=
  isKeyup event || isKeydown event
  || matchIgnoreCase "home" (key event) || matchIgnoreCase "end" (key event).

(** * Properties *)

(** ** Tactics for the sample pages: membership, evaluation, decision *)

Ltac member := apply list_elem_of_In; simpl; tauto.
Ltac computed := vm_compute; reflexivity.
Ltac decided := apply (bool_decide_unpack _); vm_compute; exact I.
Ltac is_paired := unfold paired; split; [member | split; [member | split; computed]].

(** ** Two runs of the sample page *)

(** Without flags: a click on the first button expands and disables it; a
    click on the second collapses the first, clears its disabled state, and
    expands and disables the second. *)
Example run_without_flags :
  let σ0 := exec (constructor None Sample.tree) (Sample.world (Sample.page [])) in
  let σ1 := exec (clicks Sample.widget [1]) σ0 in
  let σ2 := exec (clicks Sample.widget [1; 2]) σ0 in
  (controllerState σ1 1, hasAttribute (document σ1) 11 "hidden",
   controllerState σ1 2, hasAttribute (document σ1) 12 "hidden")
  = ((Some "true", Some "true"), false, (Some "false", None), true)
  ∧ (controllerState σ2 1, hasAttribute (document σ2) 11 "hidden",
     controllerState σ2 2, hasAttribute (document σ2) 12 "hidden")
    = ((Some "false", None), true, (Some "true", Some "true"), false)
  ∧ console σ2 = [].
Proof. repeat split; computed. Qed.

(** With [data-accordion-many-containers]: both end expanded, neither
    disabled. *)
Example run_with_many_containers :
  let σ0 := exec (constructor None Sample.tree)
              (Sample.world (Sample.page [("data-accordion-many-containers", "")])) in
  let σ2 := exec (clicks Sample.widget [1; 2]) σ0 in
  (controllerState σ2 1, hasAttribute (document σ2) 11 "hidden",
   controllerState σ2 2, hasAttribute (document σ2) 12 "hidden")
  = ((Some "true", None), false, (Some "true", None), false).
Proof. computed. Qed.

(** ** Reading the document after a write *)

Lemma element_insert (d : DOM) (n m : node) (e : Element) :
  element (<[n := e]> d) m = if decide (m = n) then e else element d m.
Proof.
  unfold element. destruct (decide (m = n)) as [->|Hne].
  - by rewrite lookup_insert_eq.
  - by rewrite lookup_insert_ne.
Qed.

Lemma getAttribute_setAttribute (d : DOM) (n m : node) (a b v : string) :
  getAttribute (setAttribute n a v d) m b =
  if decide (m = n ∧ b = a) then Some v else getAttribute d m b.
Proof.
  unfold getAttribute, setAttribute. rewrite element_insert.
  destruct (decide (m = n)) as [->|Hne]; simpl.
  - destruct (decide (b = a)) as [->|Hab].
    + rewrite lookup_insert_eq. by rewrite decide_True.
    + rewrite lookup_insert_ne by done. rewrite decide_False; [done | tauto].
  - rewrite decide_False; [done | tauto].
Qed.

Lemma getAttribute_removeAttribute (d : DOM) (n m : node) (a b : string) :
  getAttribute (removeAttribute n a d) m b =
  if decide (m = n ∧ b = a) then None else getAttribute d m b.
Proof.
  unfold getAttribute, removeAttribute. rewrite element_insert.
  destruct (decide (m = n)) as [->|Hne]; simpl.
  - destruct (decide (b = a)) as [->|Hab].
    + rewrite lookup_delete_eq. by rewrite decide_True.
    + rewrite lookup_delete_ne by done. rewrite decide_False; [done | tauto].
  - rewrite decide_False; [done | tauto].
Qed.

Lemma classList_setAttribute (d : DOM) (n m : node) (a v : string) :
  classList (element (setAttribute n a v d) m) = classList (element d m).
Proof.
  unfold setAttribute. rewrite element_insert. by destruct (decide (m = n)) as [->|].
Qed.

Lemma classList_removeAttribute (d : DOM) (n m : node) (a : string) :
  classList (element (removeAttribute n a d) m) = classList (element d m).
Proof.
  unfold removeAttribute. rewrite element_insert. by destruct (decide (m = n)) as [->|].
Qed.

Lemma hasAttribute_true (d : DOM) (n : node) (a : string) :
  hasAttribute d n a = true ↔ is_Some (getAttribute d n a).
Proof.
  unfold hasAttribute. destruct (getAttribute d n a) as [v|]; split; intros H; try done.
Qed.

Lemma hasAttribute_false (d : DOM) (n : node) (a : string) :
  hasAttribute d n a = false ↔ getAttribute d n a = None.
Proof. unfold hasAttribute. by destruct (getAttribute d n a). Qed.

Lemma isControllerExpanded_true (d : DOM) (c : node) :
  isControllerExpanded d c = true ↔ getAttribute d c "aria-expanded" = Some "true".
Proof. unfold isControllerExpanded. by rewrite bool_decide_eq_true. Qed.

Lemma isControllerExpanded_false (d : DOM) (c : node) :
  isControllerExpanded d c = false ↔ getAttribute d c "aria-expanded" ≠ Some "true".
Proof. unfold isControllerExpanded. by rewrite bool_decide_eq_false. Qed.

Lemma strictEq_true (s : string) (attr : option string) :
  strictEq s attr = true ↔ attr = Some s.
Proof.
  destruct attr as [t|]; simpl; [|done].
  rewrite bool_decide_eq_true. naive_solver.
Qed.

(** ** The three attributes the widget writes, and the rest *)

Lemma sameElsewhere_refl (d : DOM) : sameElsewhere d d.
Proof. by split. Qed.

Lemma sameElsewhere_trans (d1 d2 d3 : DOM) :
  sameElsewhere d1 d2 → sameElsewhere d2 d3 → sameElsewhere d1 d3.
Proof.
  intros [H1 H1'] [H2 H2']. split.
  - intros n a Ha. by rewrite H2, H1.
  - intros n. by rewrite H2', H1'.
Qed.

Ltac not_written := unfold written; intros [H|[H|H]]; discriminate H.

Lemma not_written_id : ¬ written "id".
Proof. not_written. Qed.
Lemma not_written_controls : ¬ written "aria-controls".
Proof. not_written. Qed.
Lemma not_written_labelledby : ¬ written "aria-labelledby".
Proof. not_written. Qed.
Lemma not_written_many : ¬ written "data-accordion-many-containers".
Proof. not_written. Qed.
Lemma not_written_toggle : ¬ written "data-accordion-toggle".
Proof. not_written. Qed.

Section Elsewhere.
Context (w : Accordion) (d d' : DOM) (Hsame : sameElsewhere d d').

Lemma id_of_same (n : node) : id_of d' n = id_of d n.
Proof. unfold id_of. by rewrite (proj1 Hsame _ _ not_written_id). Qed.

Lemma allowManyContainers_same : allowManyContainers w d' = allowManyContainers w d.
Proof.
  unfold allowManyContainers, hasAttribute.
  by rewrite (proj1 Hsame _ _ not_written_many).
Qed.

Lemma willToggle_same : willToggle w d' = willToggle w d.
Proof.
  unfold willToggle. rewrite allowManyContainers_same.
  unfold hasAttribute. by rewrite (proj1 Hsame _ _ not_written_toggle).
Qed.

Lemma getContainerByController_same (c : node) :
  getContainerByController w d' c = getContainerByController w d c.
Proof.
  unfold getContainerByController.
  rewrite (proj1 Hsame _ _ not_written_controls).
  induction (containers w) as [|k ks IH]; simpl; [done|].
  rewrite id_of_same. by rewrite IH.
Qed.
End Elsewhere.

(** ** The code computes the documents of the vocabulary *)

Lemma isController_finds (w : Accordion) (d : DOM) (c : node) :
  controllerMatches w d c = true → is_Some (getContainerByController w d c).
Proof.
  unfold controllerMatches, getContainerByController.
  induction (containers w) as [|k ks IH]; simpl; [done|].
  destruct (strictEq (id_of d k) (getAttribute d c "aria-controls")); simpl; [by eexists | done].
Qed.

Lemma deactivate_run (w : Accordion) (c : node) (σ : World) :
  deactivateContainerByController c w σ =
  (tt, mkWorld (deactivate_dom w c (document σ))
         (console σ ++ diagnosed w (document σ) c) (listeners σ)).
Proof.
  destruct σ as [d log ls].
  unfold deactivateContainerByController, isController, isContainer, deactivate_dom,
    diagnosed, validated, deactivated, bind, readDOM, writeDOM, console_error, when, ret.
  simpl. fold (controllerMatches w d c).
  destruct (controllerMatches w d c); simpl; [|done].
  destruct (getContainerByController w d c) as [k|]; simpl; [|by rewrite app_nil_r].
  fold (containerMatches w d k).
  destruct (containerMatches w d k); simpl; [|done].
  destruct (willToggle w _); simpl; by rewrite app_nil_r.
Qed.

Lemma activate_run (w : Accordion) (c : node) (σ : World) :
  activateContainerByController c w σ =
  (tt, mkWorld (activate_dom w c (document σ))
         (console σ ++ diagnosed w (document σ) c) (listeners σ)).
Proof.
  destruct σ as [d log ls].
  unfold activateContainerByController, isController, isContainer, activate_dom,
    diagnosed, validated, activated, bind, readDOM, writeDOM, console_error, when, ret.
  simpl. fold (controllerMatches w d c).
  destruct (controllerMatches w d c); simpl; [|done].
  destruct (getContainerByController w d c) as [k|]; simpl; [|by rewrite app_nil_r].
  fold (containerMatches w d k).
  destruct (containerMatches w d k); simpl; [|done].
  destruct (willToggle w _); simpl; by rewrite app_nil_r.
Qed.

Lemma forEach_deactivate_run (w : Accordion) (l : list node) (σ : World) :
  forEach l (λ x, deactivateContainerByController x w) σ =
  (tt, mkWorld (deactivate_all w l (document σ))
         (console σ ++ diagnosed_all w l (document σ)) (listeners σ)).
Proof.
  revert σ. induction l as [|x l IH]; intros σ; simpl.
  - destruct σ; unfold ret; simpl. by rewrite app_nil_r.
  - unfold bind. rewrite deactivate_run. rewrite IH. simpl.
    by rewrite app_assoc.
Qed.

Lemma collapseOthers_run (w : Accordion) (c : node) (σ : World) :
  collapseOthers w c σ =
  (tt, mkWorld (collapseOthers_dom w c (document σ))
         (console σ ++ (if allowManyContainers w (document σ) then []
                        else diagnosed_all w (others w (document σ) c) (document σ)))
         (listeners σ)).
Proof.
  unfold collapseOthers, collapseOthers_dom, bind, readDOM, when.
  destruct (allowManyContainers w (document σ)); simpl.
  - destruct σ; unfold ret; simpl. by rewrite app_nil_r.
  - by rewrite forEach_deactivate_run.
Qed.

(** The document after a toggle. *)
Lemma document_update (w : Accordion) (c : node) (σ : World) :
  document (exec (updateContainerByController w c) σ) = toggle_dom w c (document σ).
Proof.
  unfold exec, updateContainerByController, toggle_dom, bind.
  rewrite collapseOthers_run. unfold readDOM. simpl.
  destruct (isControllerExpanded _ c); simpl.
  - destruct (willToggle w _); simpl; [|done]. by rewrite deactivate_run.
  - by rewrite activate_run.
Qed.

Lemma listeners_update (w : Accordion) (c : node) (σ : World) :
  listeners (exec (updateContainerByController w c) σ) = listeners σ.
Proof.
  unfold exec, updateContainerByController, bind.
  rewrite collapseOthers_run. unfold readDOM. simpl.
  destruct (isControllerExpanded _ c); simpl.
  - destruct (willToggle w _); simpl; [|done]. by rewrite deactivate_run.
  - by rewrite activate_run.
Qed.

(** ** The attributes after an activation and after a deactivation *)

Lemma sameElsewhere_setAttribute (d : DOM) (n : node) (a v : string) :
  written a → sameElsewhere d (setAttribute n a v d).
Proof.
  intros Ha. split.
  - intros m b Hb. rewrite getAttribute_setAttribute.
    rewrite decide_False; [done|]. intros [_ ->]. by apply Hb.
  - intros m. apply classList_setAttribute.
Qed.

Lemma sameElsewhere_removeAttribute (d : DOM) (n : node) (a : string) :
  written a → sameElsewhere d (removeAttribute n a d).
Proof.
  intros Ha. split.
  - intros m b Hb. rewrite getAttribute_removeAttribute.
    rewrite decide_False; [done|]. intros [_ ->]. by apply Hb.
  - intros m. apply classList_removeAttribute.
Qed.

Lemma written_expanded : written "aria-expanded".
Proof. by left. Qed.
Lemma written_disabled : written "aria-disabled".
Proof. by right; left. Qed.
Lemma written_hidden : written "hidden".
Proof. by right; right. Qed.

Ltac attr_cases :=
  repeat case_decide; destruct_and?; simplify_eq; try done;
  try (exfalso; tauto).

Lemma getAttribute_deactivated (w : Accordion) (c k : node) (d : DOM) (n : node) (a : string) :
  getAttribute (deactivated w c k d) n a =
  if decide (n = c ∧ a = "aria-disabled")
  then (if willToggle w d then getAttribute d n a else None)
  else if decide (n = k ∧ a = "hidden") then Some ""
  else if decide (n = c ∧ a = "aria-expanded") then Some "false"
  else getAttribute d n a.
Proof.
  unfold deactivated.
  assert (willToggle w (setAttribute k "hidden" "" (setAttribute c "aria-expanded" "false" d))
          = willToggle w d) as ->.
  { apply willToggle_same. eapply sameElsewhere_trans.
    - apply sameElsewhere_setAttribute, written_expanded.
    - apply sameElsewhere_setAttribute, written_hidden. }
  destruct (willToggle w d); simpl;
    rewrite ?getAttribute_removeAttribute, !getAttribute_setAttribute; attr_cases.
Qed.

Lemma getAttribute_activated (w : Accordion) (c k : node) (d : DOM) (n : node) (a : string) :
  getAttribute (activated w c k d) n a =
  if decide (n = c ∧ a = "aria-disabled")
  then (if willToggle w d then getAttribute d n a else Some "true")
  else if decide (n = k ∧ a = "hidden") then None
  else if decide (n = c ∧ a = "aria-expanded") then Some "true"
  else getAttribute d n a.
Proof.
  unfold activated.
  assert (willToggle w (removeAttribute k "hidden" (setAttribute c "aria-expanded" "true" d))
          = willToggle w d) as ->.
  { apply willToggle_same. eapply sameElsewhere_trans.
    - apply sameElsewhere_setAttribute, written_expanded.
    - apply sameElsewhere_removeAttribute, written_hidden. }
  destruct (willToggle w d); simpl;
    rewrite ?getAttribute_setAttribute, !getAttribute_removeAttribute,
      ?getAttribute_setAttribute; attr_cases.
Qed.

Lemma classList_deactivated (w : Accordion) (c k : node) (d : DOM) (n : node) :
  classList (element (deactivated w c k d) n) = classList (element d n).
Proof.
  unfold deactivated. destruct (negb _);
    by rewrite ?classList_removeAttribute, !classList_setAttribute.
Qed.

Lemma classList_activated (w : Accordion) (c k : node) (d : DOM) (n : node) :
  classList (element (activated w c k d) n) = classList (element d n).
Proof.
  unfold activated. destruct (negb _);
    by rewrite ?classList_setAttribute, classList_removeAttribute, classList_setAttribute.
Qed.

Lemma sameElsewhere_deactivated (w : Accordion) (c k : node) (d : DOM) :
  sameElsewhere d (deactivated w c k d).
Proof.
  split.
  - intros n a Ha. rewrite getAttribute_deactivated.
    unfold written in Ha. attr_cases.
  - intros n. apply classList_deactivated.
Qed.

Lemma sameElsewhere_activated (w : Accordion) (c k : node) (d : DOM) :
  sameElsewhere d (activated w c k d).
Proof.
  split.
  - intros n a Ha. rewrite getAttribute_activated.
    unfold written in Ha. attr_cases.
  - intros n. apply classList_activated.
Qed.

Section ElsewhereValidation.
Context (w : Accordion) (d d' : DOM) (Hsame : sameElsewhere d d').

Lemma controllerMatches_same (c : node) :
  controllerMatches w d' c = controllerMatches w d c.
Proof.
  unfold controllerMatches.
  rewrite (proj1 Hsame _ _ not_written_controls).
  induction (containers w) as [|k ks IH]; simpl; [done|].
  by rewrite (id_of_same d d' Hsame), IH.
Qed.

Lemma containerMatches_same (k : node) :
  containerMatches w d' k = containerMatches w d k.
Proof.
  unfold containerMatches.
  rewrite (proj1 Hsame _ _ not_written_labelledby).
  induction (controllers w) as [|c cs IH]; simpl; [done|].
  by rewrite (id_of_same d d' Hsame), IH.
Qed.

Lemma validated_same (c : node) : validated w d' c = validated w d c.
Proof.
  unfold validated.
  rewrite controllerMatches_same, (getContainerByController_same w d d' Hsame).
  destruct (getContainerByController w d c) as [k|]; [|done].
  by rewrite containerMatches_same.
Qed.

Lemma diagnosed_same (c : node) : diagnosed w d' c = diagnosed w d c.
Proof.
  unfold diagnosed.
  rewrite controllerMatches_same, (getContainerByController_same w d d' Hsame).
  destruct (getContainerByController w d c) as [k|]; [|done].
  by rewrite containerMatches_same.
Qed.
End ElsewhereValidation.

Lemma sameElsewhere_deactivate_dom (w : Accordion) (c : node) (d : DOM) :
  sameElsewhere d (deactivate_dom w c d).
Proof.
  unfold deactivate_dom. destruct (validated w d c).
  - apply sameElsewhere_deactivated.
  - apply sameElsewhere_refl.
Qed.

Lemma sameElsewhere_activate_dom (w : Accordion) (c : node) (d : DOM) :
  sameElsewhere d (activate_dom w c d).
Proof.
  unfold activate_dom. destruct (validated w d c).
  - apply sameElsewhere_activated.
  - apply sameElsewhere_refl.
Qed.

Lemma validated_container (w : Accordion) (d : DOM) (c k : node) :
  validated w d c = Some k →
  k ∈ containers w ∧ getAttribute d c "aria-controls" = Some (id_of d k)
  ∧ containerMatches w d k = true.
Proof.
  unfold validated. destruct (controllerMatches w d c); [|done].
  destruct (getContainerByController w d c) as [k'|] eqn:Hfind; [|done].
  destruct (containerMatches w d k') eqn:Hk; [|done].
  intros [= <-]. apply find_some in Hfind as [Hin Heq].
  apply strictEq_true in Heq. by rewrite <- list_elem_of_In in Hin.
Qed.

(** ** The loop of deactivations *)

Lemma collapses_refl (w : Accordion) (L : list node) (d : DOM) : collapses w L d d.
Proof. split; [apply sameElsewhere_refl|]. repeat split; intros n; by left. Qed.

Lemma collapses_trans (w : Accordion) (L : list node) (d1 d2 d3 : DOM) :
  collapses w L d1 d2 → collapses w L d2 d3 → collapses w L d1 d3.
Proof.
  intros (S1 & E1 & H1 & D1) (S2 & E2 & H2 & D2).
  split; [by eapply sameElsewhere_trans|]. repeat split; intros n.
  - destruct (E2 n) as [->|?]; [apply E1 | by right].
  - destruct (H2 n) as [->|?]; [apply H1 | by right].
  - destruct (D2 n) as [->|(? & Hw & ?)]; [apply D1|].
    right. by rewrite <- (willToggle_same w d1 d2 S1).
Qed.

Lemma collapses_deactivate_dom (w : Accordion) (L : list node) (x : node) (d : DOM) :
  x ∈ L → collapses w L d (deactivate_dom w x d).
Proof.
  intros Hx. unfold deactivate_dom.
  destruct (validated w d x) as [k|] eqn:Hv; [|apply collapses_refl].
  apply validated_container in Hv as (Hk & _ & _).
  split; [apply sameElsewhere_deactivated|].
  repeat split; intros n; rewrite getAttribute_deactivated.
  - attr_cases; try (by left); by right.
  - attr_cases; try (by left); by right.
  - destruct (willToggle w d) eqn:Hw; attr_cases; try (by left); by right.
Qed.

Lemma collapses_deactivate_all (w : Accordion) (L l : list node) (d : DOM) :
  l ⊆ L → collapses w L d (deactivate_all w l d).
Proof.
  revert d. induction l as [|x l IH]; intros d Hl; simpl.
  - apply collapses_refl.
  - eapply collapses_trans.
    + apply (collapses_deactivate_dom w L x d). apply Hl. by left.
    + apply IH. intros y Hy. apply Hl. by right.
Qed.

(** A member that validates ends collapsed with its container hidden. *)
Lemma deactivate_all_closes (w : Accordion) (l : list node) (d : DOM) (x k : node) :
  x ∈ l → validated w d x = Some k →
  getAttribute (deactivate_all w l d) x "aria-expanded" = Some "false"
  ∧ getAttribute (deactivate_all w l d) k "hidden" = Some "".
Proof.
  revert d. induction l as [|y l IH]; intros d Hx Hv; [by apply elem_of_nil in Hx|].
  simpl. destruct (decide (x = y)) as [<-|Hne].
  - destruct (collapses_deactivate_all w l l (deactivate_dom w x d)) as (_ & E & H & _);
      [done|].
    assert (getAttribute (deactivate_dom w x d) x "aria-expanded" = Some "false"
            ∧ getAttribute (deactivate_dom w x d) k "hidden" = Some "") as [He Hh].
    { unfold deactivate_dom. rewrite Hv, !getAttribute_deactivated. split; attr_cases. }
    split.
    + destruct (E x) as [->|[_ ?]]; done.
    + destruct (H k) as [->|[_ ?]]; done.
  - apply IH.
    + apply elem_of_cons in Hx as [?|?]; done.
    + by rewrite (validated_same w d _ (sameElsewhere_deactivate_dom w y d)).
Qed.

(** ** Pairing and identifiers *)

Lemma uniqueIds_inj (d : DOM) (l : list node) (x y : node) :
  uniqueIds d l → x ∈ l → y ∈ l → id_of d x = id_of d y → x = y.
Proof.
  unfold uniqueIds. induction l as [|z l IH]; intros Hnd Hx Hy Heq.
  - by apply elem_of_nil in Hx.
  - rewrite fmap_cons in Hnd. apply NoDup_cons in Hnd as [Hz Hnd].
    apply elem_of_cons in Hx as [->|Hx]; apply elem_of_cons in Hy as [->|Hy]; [done | | |].
    + exfalso. apply Hz. rewrite Heq. by apply list_elem_of_fmap_2.
    + exfalso. apply Hz. rewrite <- Heq. by apply list_elem_of_fmap_2.
    + by apply IH.
Qed.

Lemma uniqueIds_same (d d' : DOM) (l : list node) :
  sameElsewhere d d' → uniqueIds d l → uniqueIds d' l.
Proof.
  intros Hs. unfold uniqueIds.
  assert ((id_of d' <$> l) = (id_of d <$> l)) as ->; [|done].
  apply list_fmap_ext. intros _ x _. by apply id_of_same.
Qed.

Lemma paired_same (w : Accordion) (d d' : DOM) (c k : node) :
  sameElsewhere d d' → paired w d c k → paired w d' c k.
Proof.
  intros Hs (Hc & Hk & Hck & Hkc). repeat split; [done..| |].
  - by rewrite (proj1 Hs _ _ not_written_controls), (id_of_same d d' Hs).
  - by rewrite (proj1 Hs _ _ not_written_labelledby), (id_of_same d d' Hs).
Qed.

Lemma paired_controllerMatches (w : Accordion) (d : DOM) (c k : node) :
  paired w d c k → controllerMatches w d c = true ∧ containerMatches w d k = true.
Proof.
  intros (Hc & Hk & Hck & Hkc). split.
  - apply existsb_exists. exists k. split; [by apply list_elem_of_In|].
    by apply strictEq_true.
  - apply existsb_exists. exists c. split; [by apply list_elem_of_In|].
    by apply strictEq_true.
Qed.

Lemma paired_validated (w : Accordion) (d : DOM) (c k : node) :
  uniqueIds d (containers w) → paired w d c k → validated w d c = Some k.
Proof.
  intros Hu Hp. destruct (paired_controllerMatches w d c k Hp) as [Hc Hk].
  destruct Hp as (_ & Hkin & Hck & _).
  unfold validated. rewrite Hc.
  destruct (isController_finds w d c Hc) as [k' Hfind]. rewrite Hfind.
  unfold getContainerByController in Hfind.
  apply find_some in Hfind as [Hin Heq]. apply list_elem_of_In in Hin.
  apply strictEq_true in Heq. rewrite Hck in Heq.
  assert (k' = k) as ->.
  { apply (uniqueIds_inj d (containers w)); [done..|]. congruence. }
  by rewrite Hk.
Qed.

(** Two pairs of different controllers have different containers. *)
Lemma paired_containers_differ (w : Accordion) (d : DOM) (a ka b kb : node) :
  uniqueIds d (controllers w) → paired w d a ka → paired w d b kb → a ≠ b → ka ≠ kb.
Proof.
  intros Hu (Ha & _ & _ & Hla) (Hb & _ & _ & Hlb) Hne ->.
  apply Hne, (uniqueIds_inj d (controllers w)); [done..|]. congruence.
Qed.

(** ** The steps of a toggle *)

Lemma elem_of_others (w : Accordion) (d : DOM) (c x : node) :
  x ∈ others w d c ↔ x ∈ controllers w ∧ isControllerExpanded d x = true ∧ x ≠ c.
Proof.
  unfold others, getActiveControllers.
  rewrite list_elem_of_In, !filter_In, <- list_elem_of_In.
  rewrite negb_true_iff, bool_decide_eq_false. tauto.
Qed.

Lemma collapses_collapseOthers (w : Accordion) (c : node) (d : DOM) :
  collapses w (others w d c) d (collapseOthers_dom w c d).
Proof.
  unfold collapseOthers_dom. destruct (negb _).
  - by apply collapses_deactivate_all.
  - apply collapses_refl.
Qed.

Lemma sameElsewhere_toggle_dom (w : Accordion) (c : node) (d : DOM) :
  sameElsewhere d (toggle_dom w c d).
Proof.
  unfold toggle_dom.
  pose proof (proj1 (collapses_collapseOthers w c d)) as H1.
  destruct (negb _).
  - eapply sameElsewhere_trans; [done | apply sameElsewhere_activate_dom].
  - destruct (_ && _); [|done].
    eapply sameElsewhere_trans; [done | apply sameElsewhere_deactivate_dom].
Qed.

(** The argument of a toggle keeps its expanded state through the loop. *)
Lemma collapseOthers_keeps_target (w : Accordion) (c : node) (d : DOM) :
  getAttribute (collapseOthers_dom w c d) c "aria-expanded"
  = getAttribute d c "aria-expanded".
Proof.
  destruct (collapses_collapseOthers w c d) as (_ & E & _ & _).
  destruct (E c) as [?|[Hin _]]; [done|].
  apply elem_of_others in Hin. tauto.
Qed.

Lemma isControllerExpanded_collapseOthers (w : Accordion) (c : node) (d : DOM) :
  isControllerExpanded (collapseOthers_dom w c d) c = isControllerExpanded d c.
Proof. unfold isControllerExpanded. by rewrite collapseOthers_keeps_target. Qed.

(** The two branches of a toggle that write. *)
Lemma toggle_dom_expand (w : Accordion) (d : DOM) (c k : node) :
  validated w d c = Some k → isControllerExpanded d c = false →
  toggle_dom w c d = activated w c k (collapseOthers_dom w c d).
Proof.
  intros Hv Hexp. unfold toggle_dom.
  rewrite isControllerExpanded_collapseOthers, Hexp. cbn [negb].
  unfold activate_dom.
  by rewrite (validated_same w d _ (proj1 (collapses_collapseOthers w c d))), Hv.
Qed.

Lemma toggle_dom_collapse (w : Accordion) (d : DOM) (c k : node) :
  validated w d c = Some k → isControllerExpanded d c = true → willToggle w d = true →
  toggle_dom w c d = deactivated w c k (collapseOthers_dom w c d).
Proof.
  intros Hv Hexp Hw. unfold toggle_dom.
  rewrite isControllerExpanded_collapseOthers, Hexp.
  rewrite (willToggle_same w d _ (proj1 (collapses_collapseOthers w c d))), Hw.
  cbn [negb andb]. unfold deactivate_dom.
  by rewrite (validated_same w d _ (proj1 (collapses_collapseOthers w c d))), Hv.
Qed.

Lemma collapseOthers_dom_many (w : Accordion) (d : DOM) (c : node) :
  allowManyContainers w d = true → collapseOthers_dom w c d = d.
Proof. unfold collapseOthers_dom. by intros ->. Qed.

(** ** C1: single-open mode *)

Lemma stray_constructed :
  eval (constructor None Stray.tree) (Sample.world Stray.markup) = Ok Stray.widget.
Proof. computed. Qed.

(** C1, the claim as written fails: on the sample page with a stray expanded
    button, a click on the second button leaves the second and the third
    controller both expanded. *)
Lemma C1_counterexample :
  ¬ single_open_as_stated Stray.widget Stray.opened 1 11 2 12.
Proof.
  intros H.
  destruct H as (_ & _ & _ & _ & Hno);
    [decided | decided | computed | is_paired | is_paired | computed | computed |].
  apply (Hno 2 3); [member | member | done |].
  split; computed.
Qed.

(** In single-open mode the loop of a toggle closes every validly paired
    controller other than the argument. *)
Lemma collapseOthers_closes (w : Accordion) (d : DOM) (c x kx : node) :
  uniqueIds d (containers w) →
  allowManyContainers w d = false →
  paired w d x kx → x ≠ c →
  isControllerExpanded (collapseOthers_dom w c d) x = false
  ∧ (isControllerExpanded d x = true →
     getAttribute (collapseOthers_dom w c d) x "aria-expanded" = Some "false"
     ∧ getAttribute (collapseOthers_dom w c d) kx "hidden" = Some "").
Proof.
  intros Hu Hmany Hp Hne.
  pose proof (paired_validated w d x kx Hu Hp) as Hv.
  destruct (isControllerExpanded d x) eqn:Hx.
  - assert (x ∈ others w d c) as Hin.
    { apply elem_of_others. destruct Hp as (? & _). done. }
    unfold collapseOthers_dom. rewrite Hmany. simpl.
    destruct (deactivate_all_closes w _ d x kx Hin Hv) as [He Hh].
    split; [|done]. apply isControllerExpanded_false. by rewrite He.
  - split; [|done].
    destruct (collapses_collapseOthers w c d) as (_ & E & _ & _).
    apply isControllerExpanded_false. apply isControllerExpanded_false in Hx.
    destruct (E x) as [->|[_ ->]]; done.
Qed.

(** C1, amended: without [data-accordion-many-containers], with unique
    identifiers, for validly paired controllers A (expanded) and B
    (collapsed), a toggle of B leaves A with [aria-expanded="false"] and its
    container hidden, B with [aria-expanded="true"] and its container not
    hidden, and no validly paired controller other than B expanded. *)
Theorem C1_single_open (w : Accordion) (σ : World) (A KA B KB : node) :
  uniqueIds (document σ) (controllers w) →
  uniqueIds (document σ) (containers w) →
  allowManyContainers w (document σ) = false →
  paired w (document σ) A KA → paired w (document σ) B KB →
  isControllerExpanded (document σ) A = true →
  isControllerExpanded (document σ) B = false →
  let d' := document (exec (updateContainerByController w B) σ) in
  getAttribute d' A "aria-expanded" = Some "false" ∧ hasAttribute d' KA "hidden" = true ∧
  getAttribute d' B "aria-expanded" = Some "true" ∧ hasAttribute d' KB "hidden" = false ∧
  ∀ X KX, paired w (document σ) X KX → X ≠ B → isControllerExpanded d' X = false.
Proof.
  intros Huc Huk Hmany HA HB HAexp HBexp d'. subst d'.
  rewrite document_update. generalize dependent (document σ). intros d.
  intros Huc Huk Hmany HA HB HAexp HBexp.
  assert (A ≠ B) as HAB by (intros ->; congruence).
  pose proof (paired_containers_differ w d A KA B KB Huc HA HB HAB) as HK.
  rewrite (toggle_dom_expand w d B KB (paired_validated w d B KB Huk HB) HBexp).
  destruct (collapseOthers_closes w d B A KA Huk Hmany HA HAB) as [_ HAcl].
  destruct (HAcl HAexp) as [HAe HAh].
  repeat split.
  - rewrite getAttribute_activated. attr_cases.
  - apply hasAttribute_true. rewrite getAttribute_activated. attr_cases.
  - rewrite getAttribute_activated. attr_cases.
  - apply hasAttribute_false. rewrite getAttribute_activated. attr_cases.
  - intros X KX HX HXB.
    destruct (collapseOthers_closes w d B X KX Huk Hmany HX HXB) as [Hcl _].
    apply isControllerExpanded_false. apply isControllerExpanded_false in Hcl.
    rewrite getAttribute_activated. attr_cases.
Qed.

(** On the sample page, after construction and a click on the first
    button, a click on the second button moves the open pair. *)
Lemma C1_single_open_witness :
  let σ := exec (updateContainerByController Sample.widget 1)
             (exec (constructor None Sample.tree) (Sample.world (Sample.page []))) in
  let d' := document (exec (updateContainerByController Sample.widget 2) σ) in
  getAttribute d' 1 "aria-expanded" = Some "false" ∧ hasAttribute d' 11 "hidden" = true ∧
  getAttribute d' 2 "aria-expanded" = Some "true" ∧ hasAttribute d' 12 "hidden" = false ∧
  ∀ X KX, paired Sample.widget (document σ) X KX → X ≠ 2 → isControllerExpanded d' X = false.
Proof.
  intros σ.
  apply (C1_single_open Sample.widget σ 1 11 2 12);
    [decided | decided | computed | is_paired | is_paired | computed | computed].
Defined.

(** ** C2: a toggle of a controller that names no container *)

Lemma console_update (w : Accordion) (c : node) (σ : World) :
  console (exec (updateContainerByController w c) σ) =
  console (exec (collapseOthers w c) σ)
  ++ own_log w c (document (exec (collapseOthers w c) σ)).
Proof.
  unfold exec, updateContainerByController, own_log, bind.
  rewrite collapseOthers_run. unfold readDOM. simpl.
  destruct (isControllerExpanded _ c); simpl.
  - destruct (willToggle w _); simpl; [|by rewrite app_nil_r]. by rewrite deactivate_run.
  - by rewrite activate_run.
Qed.

Lemma document_collapseOthers (w : Accordion) (c : node) (σ : World) :
  document (exec (collapseOthers w c) σ) = collapseOthers_dom w c (document σ).
Proof. unfold exec. by rewrite collapseOthers_run. Qed.

Lemma console_collapseOthers (w : Accordion) (c : node) (σ : World) :
  ∃ log, console (exec (collapseOthers w c) σ) = console σ ++ log.
Proof. unfold exec. rewrite collapseOthers_run. simpl. by eexists. Qed.

(** C2, the claim as written fails: on the page with the stray third
    button and the first pair open, a toggle of the third button collapses
    the first controller. *)
Lemma C2_counterexample : ¬ invalid_toggle_as_stated Stray.widget Stray.opened 3.
Proof.
  intros H. destruct H as [_ Hsame]; [member | computed |].
  specialize (Hsame 1).
  apply (f_equal (λ e, attributes e !! "aria-expanded")) in Hsame.
  vm_compute in Hsame. discriminate Hsame.
Qed.

(** C2, amended: a toggle of a controller whose [aria-controls] names no
    container writes nothing for that controller: the document after the
    toggle is the document after the collapse of the other expanded
    controllers, so it is the document before the toggle when
    [data-accordion-many-containers] is set or no other controller is
    expanded; and when the controller is not expanded or collapsing is
    allowed, the last diagnostic is the validation failure of that
    controller. *)
Theorem C2_invalid_toggle (w : Accordion) (σ : World) (c : node) :
  controllerMatches w (document σ) c = false →
  let σ' := exec (updateContainerByController w c) σ in
  document σ' = document (exec (collapseOthers w c) σ)
  ∧ (allowManyContainers w (document σ) = true ∨ others w (document σ) c = [] →
     document σ' = document σ)
  ∧ (isControllerExpanded (document σ) c = false ∨ willToggle w (document σ) = true →
     ∃ log, console σ' = console σ ++ log ++ [ControllerMismatch c]).
Proof.
  intros Hc σ'. subst σ'. set (d := document σ) in *.
  pose proof (proj1 (collapses_collapseOthers w c d)) as Hsame.
  assert (controllerMatches w (collapseOthers_dom w c d) c = false) as Hc1
    by (by rewrite (controllerMatches_same w d _ Hsame)).
  assert (toggle_dom w c d = collapseOthers_dom w c d) as Hdoc.
  { unfold toggle_dom, activate_dom, deactivate_dom, validated. rewrite Hc1.
    by repeat case_match. }
  split; [|split].
  - by rewrite document_update, document_collapseOthers.
  - intros Hquiet. rewrite document_update. fold d. rewrite Hdoc.
    unfold collapseOthers_dom.
    destruct Hquiet as [-> | ->]; [done|]. by destruct (negb _).
  - intros Hrep. rewrite console_update, document_collapseOthers.
    destruct (console_collapseOthers w c σ) as [log ->].
    exists log. fold d. rewrite <- app_assoc. do 2 f_equal.
    unfold own_log, diagnosed. rewrite Hc1.
    rewrite isControllerExpanded_collapseOthers, (willToggle_same w d _ Hsame).
    destruct Hrep as [-> | ->]; [done|].
    by destruct (isControllerExpanded d c).
Qed.

Lemma C2_invalid_toggle_witness :
  let σ := StrayMany.opened in
  let σ' := exec (updateContainerByController Stray.widget 3) σ in
  document σ' = document (exec (collapseOthers Stray.widget 3) σ)
  ∧ (allowManyContainers Stray.widget (document σ) = true
     ∨ others Stray.widget (document σ) 3 = [] → document σ' = document σ)
  ∧ (isControllerExpanded (document σ) 3 = false
     ∨ willToggle Stray.widget (document σ) = true →
     ∃ log, console σ' = console σ ++ log ++ [ControllerMismatch 3]).
Proof.
  intros σ. apply (C2_invalid_toggle Stray.widget σ 3). computed.
Defined.

(** ** C3: construction without a root *)

(** C3, the code at the failing input: when no root is passed and the
    document has no element of class [accordion], the constructor reads
    [querySelectorAll] on [null] and throws; it builds no widget and writes
    nothing. *)
Theorem C3_constructor_throws (doc : Tree) (σ : World) :
  querySelector (document σ) doc ".accordion" = None →
  constructor None doc σ = (TypeError, σ).
Proof.
  intros Hnone. unfold constructor, bind, readDOM, resolveRoot. by rewrite Hnone.
Qed.

Lemma C3_constructor_throws_witness :
  constructor None Bare.tree (Sample.world Bare.page) = (TypeError, Sample.world Bare.page).
Proof. apply (C3_constructor_throws Bare.tree (Sample.world Bare.page)). computed. Defined.

(** The guarded variant does what the claim says: construction returns an
    inert widget, the world is untouched, root reads answer [false] and
    root writes do nothing. *)
Lemma bundle_constructor_degrades (doc : Tree) (σ : World) :
  querySelector (document σ) doc ".accordion" = None →
  ∃ w, Bundle.constructor None doc σ = (w, σ)
       ∧ Bundle.root w = None ∧ Bundle.controllers w = [] ∧ Bundle.containers w = []
       ∧ (∀ d, Bundle.allowManyContainers w d = false ∧ Bundle.willToggle w d = false)
       ∧ (∀ σ', Bundle.activateRoot w σ' = (tt, σ') ∧ Bundle.deactivateRoot w σ' = (tt, σ')).
Proof.
  intros Hnone. exists (Bundle.mkAccordion None [] []).
  split; [|done].
  unfold Bundle.constructor, bind, readDOM, resolveRoot. by rewrite Hnone.
Qed.

(** ** C4: visibility follows the expanded state *)

Lemma coherent_pairs (w : Accordion) (d : DOM) :
  coherent w d ↔
  ∀ c k, paired w d c k →
         (hasAttribute d k "hidden" = false ↔ getAttribute d c "aria-expanded" = Some "true").
Proof.
  unfold coherent. rewrite Forall_forall. split.
  - intros H c k Hp. pose proof Hp as (Hc & Hk & _).
    specialize (H c Hc). rewrite Forall_forall in H. by apply H.
  - intros H c Hc. rewrite Forall_forall. intros k Hk. apply H.
Qed.

Lemma acceptsOnlyPairs_paired (w : Accordion) (d : DOM) (c k : node) :
  acceptsOnlyPairs w d = true → c ∈ controllers w → validated w d c = Some k →
  paired w d c k.
Proof.
  unfold acceptsOnlyPairs. rewrite forallb_forall. intros H Hc Hv.
  apply list_elem_of_In in Hc. specialize (H c Hc). rewrite Hv in H.
  by apply bool_decide_eq_true in H.
Qed.

Lemma sameElsewhere_sym (d d' : DOM) : sameElsewhere d d' → sameElsewhere d' d.
Proof.
  intros [H1 H2]. split.
  - intros n a Ha. by rewrite H1.
  - intros n. by rewrite H2.
Qed.

Section Invariants.
Context (w : Accordion) (P : DOM → Prop).
Context (Hdeactivate : ∀ x d, x ∈ controllers w → P d → P (deactivate_dom w x d)).
Context (Hactivate : ∀ x d, x ∈ controllers w → P d → P (activate_dom w x d)).

Lemma deactivate_all_invariant (l : list node) (d : DOM) :
  l ⊆ controllers w → P d → P (deactivate_all w l d).
Proof.
  revert d. induction l as [|x l IH]; intros d Hl Hd; simpl; [done|].
  apply IH.
  - intros y Hy. apply Hl. by right.
  - apply Hdeactivate; [|done]. apply Hl. by left.
Qed.

Lemma toggle_dom_invariant (c : node) (d : DOM) :
  c ∈ controllers w → P d → P (toggle_dom w c d).
Proof.
  intros Hc Hd. unfold toggle_dom.
  assert (P (collapseOthers_dom w c d)) as H1.
  { unfold collapseOthers_dom. destruct (negb _); [|done].
    apply deactivate_all_invariant; [|done].
    intros y Hy. apply elem_of_others in Hy. tauto. }
  destruct (negb _); [by apply Hactivate|].
  destruct (_ && _); [by apply Hdeactivate | done].
Qed.

Lemma toggles_invariant (σ σ' : World) :
  toggles w σ σ' → P (document σ) → P (document σ').
Proof.
  induction 1 as [σ|σ σ' c Hrun IH Hc]; [done|].
  intros Hd. rewrite document_update. apply toggle_dom_invariant; auto.
Qed.
End Invariants.

Section Coherence.
Context (w : Accordion) (d0 : DOM).
Context (Huc : uniqueIds d0 (controllers w)) (Huk : uniqueIds d0 (containers w)).
Context (Hacc : acceptsOnlyPairs w d0 = true).

Lemma validated_paired (d : DOM) (x kx : node) :
  sameElsewhere d0 d → x ∈ controllers w → validated w d x = Some kx →
  paired w d0 x kx.
Proof.
  intros Hs Hx Hv. rewrite (validated_same w d0 d Hs) in Hv.
  by apply acceptsOnlyPairs_paired.
Qed.

(** A pair other than the one written is untouched; the one written
    stays coherent. *)
Lemma pair_cases (x kx c k : node) :
  paired w d0 x kx → paired w d0 c k →
  (c = x ∧ k = kx) ∨ (c ≠ x ∧ k ≠ kx).
Proof.
  intros Hx Hc. destruct (decide (c = x)) as [->|Hne].
  - left. split; [done|].
    destruct Hx as (_ & Hkx & Hcx & _), Hc as (_ & Hk & Hck & _).
    apply (uniqueIds_inj d0 (containers w)); [done..|]. congruence.
  - right. split; [done|]. by apply (paired_containers_differ w d0 c k x kx).
Qed.

Lemma coh_deactivate_dom (d : DOM) (x : node) :
  x ∈ controllers w → coh w d0 d → coh w d0 (deactivate_dom w x d).
Proof.
  intros Hx [Hs Hcoh]. split.
  { eapply sameElsewhere_trans; [done | apply sameElsewhere_deactivate_dom]. }
  intros c k Hp. unfold deactivate_dom.
  destruct (validated w d x) as [kx|] eqn:Hv; [|by apply Hcoh].
  pose proof (validated_paired d x kx Hs Hx Hv) as Hpx.
  rewrite hasAttribute_false, !getAttribute_deactivated.
  destruct (pair_cases x kx c k Hpx Hp) as [[-> ->]|[Hc Hk]].
  - attr_cases.
  - attr_cases. rewrite <- hasAttribute_false. by apply Hcoh.
Qed.

Lemma coh_activate_dom (d : DOM) (x : node) :
  x ∈ controllers w → coh w d0 d → coh w d0 (activate_dom w x d).
Proof.
  intros Hx [Hs Hcoh]. split.
  { eapply sameElsewhere_trans; [done | apply sameElsewhere_activate_dom]. }
  intros c k Hp. unfold activate_dom.
  destruct (validated w d x) as [kx|] eqn:Hv; [|by apply Hcoh].
  pose proof (validated_paired d x kx Hs Hx Hv) as Hpx.
  rewrite hasAttribute_false, !getAttribute_activated.
  destruct (pair_cases x kx c k Hpx Hp) as [[-> ->]|[Hc Hk]].
  - attr_cases.
  - attr_cases. rewrite <- hasAttribute_false. by apply Hcoh.
Qed.

Lemma coh_toggle_dom (d : DOM) (c : node) :
  c ∈ controllers w → coh w d0 d → coh w d0 (toggle_dom w c d).
Proof.
  apply (toggle_dom_invariant w (coh w d0)).
  - intros x d'. apply coh_deactivate_dom.
  - intros x d'. apply coh_activate_dom.
Qed.
End Coherence.

Lemma preset_constructed :
  constructor None Sample.tree (Sample.world Preset.markup) = (Ok Sample.widget, Preset.loaded).
Proof. computed. Qed.

(** C4, the claim as written fails: initialization leaves a controller that
    the markup marks expanded as it is, with its container hidden. *)
Lemma C4_counterexample :
  ¬ visibility_as_stated None Sample.tree (Sample.world Preset.markup).
Proof.
  intros H.
  pose proof (H Sample.widget _ _ preset_constructed (toggles_refl _ _)) as Hcoh.
  pose proof (proj1 (coherent_pairs _ _) Hcoh) as Hpairs.
  destruct (Hpairs 1 11) as [_ Hvis]; [is_paired|].
  assert (hasAttribute (document Preset.loaded) 11 "hidden" = false) as Hno
    by (apply Hvis; computed).
  vm_compute in Hno. discriminate Hno.
Qed.

(** C4, amended: in a widget with unique identifiers in which every
    controller that passes validation is validly paired with the container
    found for it, coherence of all valid pairs is preserved by every run of
    toggles on controllers of the widget. *)
Theorem C4_visibility_preserved (w : Accordion) (σ σ' : World) :
  uniqueIds (document σ) (controllers w) →
  uniqueIds (document σ) (containers w) →
  acceptsOnlyPairs w (document σ) = true →
  coherent w (document σ) →
  toggles w σ σ' →
  coherent w (document σ').
Proof.
  intros Huc Huk Hacc Hcoh Hrun.
  assert (coh w (document σ) (document σ')) as [Hs Hfinal].
  { induction Hrun as [σ|σ σ' c Hrun IH Hc].
    - split; [apply sameElsewhere_refl|]. by apply coherent_pairs.
    - rewrite document_update. apply coh_toggle_dom; auto. }
  apply coherent_pairs. intros c k Hp. apply Hfinal.
  by apply (paired_same w (document σ') (document σ)); [apply sameElsewhere_sym|].
Qed.

(** On the sample page, after construction, a click on the first and then
    on the second button leaves every pair coherent. *)
Lemma C4_visibility_preserved_witness :
  let σ := exec (constructor None Sample.tree) (Sample.world (Sample.page [])) in
  coherent Sample.widget
    (document (exec (updateContainerByController Sample.widget 2)
                 (exec (updateContainerByController Sample.widget 1) σ))).
Proof.
  intros σ.
  apply (C4_visibility_preserved Sample.widget σ);
    [decided | decided | computed | decided |].
  apply toggles_step; [|member].
  apply toggles_step; [|member].
  apply toggles_refl.
Defined.

Lemma shared_constructed :
  constructor None Shared.tree (Sample.world Shared.markup) = (Ok Shared.widget, Shared.loaded).
Proof. computed. Qed.

(** Why the preservation needs its third hypothesis: [isContainer] accepts a
    container that is labelled by any controller, so the second button opens
    the section of the first, whose own controller stays collapsed. *)
Lemma shared_container_breaks_coherence :
  uniqueIds (document Shared.loaded) (controllers Shared.widget)
  ∧ uniqueIds (document Shared.loaded) (containers Shared.widget)
  ∧ coherent Shared.widget (document Shared.loaded)
  ∧ ¬ coherent Shared.widget
        (document (exec (updateContainerByController Shared.widget 3) Shared.loaded)).
Proof. repeat split; decided. Qed.

(** ** C5: collapsing an expanded pair *)

(** What a run of deactivations leaves alone. *)
Lemma collapses_keeps (w : Accordion) (L : list node) (d d' : DOM) (n : node) (a : string) :
  collapses w L d d' →
  (a = "aria-expanded" → n ∉ L) →
  (a = "hidden" → n ∉ containers w) →
  (a = "aria-disabled" → n ∉ L ∨ willToggle w d = true) →
  getAttribute d' n a = getAttribute d n a.
Proof.
  intros (S & E & H & D) He Hh Hd.
  destruct (decide (a = "aria-expanded")) as [->|Hne1].
  { destruct (E n) as [?|[Hin _]]; [done|]. by destruct He. }
  destruct (decide (a = "hidden")) as [->|Hne2].
  { destruct (H n) as [?|[Hin _]]; [done|]. by destruct Hh. }
  destruct (decide (a = "aria-disabled")) as [->|Hne3].
  { destruct (D n) as [?|(Hin & Hw & _)]; [done|].
    destruct Hd as [Hd|Hd]; [done | done | congruence]. }
  apply S. unfold written. tauto.
Qed.

Lemma willToggle_many (w : Accordion) (d : DOM) :
  allowManyContainers w d = true → willToggle w d = true.
Proof. unfold willToggle. by intros ->. Qed.

(** C5, the claim as written fails: a controller that was disabled while
    collapsing was not allowed keeps [aria-disabled] when it is collapsed
    after the toggle flag has been set. *)
Lemma C5_counterexample : ¬ collapse_as_stated Sample.widget Switched.toggleOn 1 11.
Proof.
  intros H.
  destruct H as (_ & _ & Hdis); [decided | decided | is_paired | computed | computed |].
  vm_compute in Hdis. discriminate Hdis.
Qed.

(** C5, amended: with unique container identifiers, a toggle of a validly
    paired expanded controller, when collapsing is allowed, sets
    [aria-expanded="false"] on it and [hidden] on its container and leaves
    its [aria-disabled] attribute as it was. *)
Theorem C5_collapse (w : Accordion) (σ : World) (c k : node) :
  uniqueIds (document σ) (containers w) →
  paired w (document σ) c k →
  isControllerExpanded (document σ) c = true →
  willToggle w (document σ) = true →
  let d' := document (exec (updateContainerByController w c) σ) in
  getAttribute d' c "aria-expanded" = Some "false"
  ∧ getAttribute d' k "hidden" = Some ""
  ∧ getAttribute d' c "aria-disabled" = getAttribute (document σ) c "aria-disabled".
Proof.
  intros Huk Hp Hexp Hw d'. subst d'. rewrite document_update.
  generalize dependent (document σ). intros d Huk Hp Hexp Hw.
  pose proof (collapses_collapseOthers w c d) as Hcol.
  rewrite (toggle_dom_collapse w d c k (paired_validated w d c k Huk Hp) Hexp Hw).
  rewrite !getAttribute_deactivated, (willToggle_same w d _ (proj1 Hcol)), Hw.
  repeat split; attr_cases.
  apply (collapses_keeps w _ d _ c "aria-disabled" Hcol); try done. by right.
Qed.

Lemma C5_collapse_witness :
  let σ := Switched.toggleOn in
  let d' := document (exec (updateContainerByController Sample.widget 1) σ) in
  getAttribute d' 1 "aria-expanded" = Some "false"
  ∧ getAttribute d' 11 "hidden" = Some ""
  ∧ getAttribute d' 1 "aria-disabled" = getAttribute (document σ) 1 "aria-disabled".
Proof.
  intros σ. apply (C5_collapse Sample.widget σ 1 11);
    [decided | is_paired | computed | computed].
Defined.

(** ** C6: many-containers mode *)

(** C6, the claim as written fails: a collapsed controller that still
    carries [aria-disabled] from the time before the flags were set keeps it
    when it is expanded in many-containers mode. *)
Lemma C6_counterexample : ¬ many_open_as_stated Sample.widget Switched.manyOn 1 11 2 12.
Proof.
  intros H.
  destruct H as (_ & _ & _ & _ & Hdis & _);
    [decided | decided | computed | is_paired | is_paired | done | computed | computed |].
  vm_compute in Hdis. discriminate Hdis.
Qed.

(** C6, amended: with [data-accordion-many-containers] and unique container
    identifiers, toggles of two different validly paired collapsed
    controllers A and then B leave both with [aria-expanded="true"], both
    containers not hidden, and [aria-disabled] of every element as it was. *)
Theorem C6_many_open (w : Accordion) (σ : World) (A KA B KB : node) :
  uniqueIds (document σ) (containers w) →
  allowManyContainers w (document σ) = true →
  paired w (document σ) A KA → paired w (document σ) B KB → A ≠ B →
  isControllerExpanded (document σ) A = false →
  isControllerExpanded (document σ) B = false →
  let d' := document (exec (updateContainerByController w B)
                        (exec (updateContainerByController w A) σ)) in
  getAttribute d' A "aria-expanded" = Some "true" ∧ hasAttribute d' KA "hidden" = false ∧
  getAttribute d' B "aria-expanded" = Some "true" ∧ hasAttribute d' KB "hidden" = false ∧
  ∀ n, getAttribute d' n "aria-disabled" = getAttribute (document σ) n "aria-disabled".
Proof.
  intros Huk Hmany HA HB HAB HAexp HBexp d'. subst d'.
  rewrite !document_update.
  generalize dependent (document σ). intros d Huk Hmany HA HB HAexp HBexp.
  rewrite (toggle_dom_expand w d A KA (paired_validated w d A KA Huk HA) HAexp).
  rewrite (collapseOthers_dom_many w d A Hmany).
  pose proof (sameElsewhere_activated w A KA d) as Hs.
  pose proof (willToggle_many w d Hmany) as Hw.
  assert (isControllerExpanded (activated w A KA d) B = false) as HBexp1.
  { apply isControllerExpanded_false. apply isControllerExpanded_false in HBexp.
    rewrite getAttribute_activated. attr_cases. }
  assert (validated w (activated w A KA d) B = Some KB) as HvB
    by (by rewrite (validated_same w d _ Hs), (paired_validated w d B KB Huk HB)).
  rewrite (toggle_dom_expand w _ B KB HvB HBexp1).
  rewrite (collapseOthers_dom_many w _ B); [|by rewrite (allowManyContainers_same w d _ Hs)].
  rewrite !hasAttribute_false.
  repeat split; try intros n;
    rewrite getAttribute_activated, (willToggle_same w d _ Hs), Hw,
      ?getAttribute_activated, ?Hw; attr_cases.
Qed.

Lemma C6_many_open_witness :
  let σ := exec (constructor None Sample.tree)
             (Sample.world (Sample.page [("data-accordion-many-containers", "")])) in
  let d' := document (exec (updateContainerByController Sample.widget 2)
                        (exec (updateContainerByController Sample.widget 1) σ)) in
  getAttribute d' 1 "aria-expanded" = Some "true" ∧ hasAttribute d' 11 "hidden" = false ∧
  getAttribute d' 2 "aria-expanded" = Some "true" ∧ hasAttribute d' 12 "hidden" = false ∧
  ∀ n, getAttribute d' n "aria-disabled" = getAttribute (document σ) n "aria-disabled".
Proof.
  intros σ. apply (C6_many_open Sample.widget σ 1 11 2 12);
    [decided | computed | is_paired | is_paired | done | computed | computed].
Defined.

(** ** C7: a full cycle of one pair *)


Lemma element_ext (d d' : DOM) (n : node) :
  (∀ a, getAttribute d' n a = getAttribute d n a) →
  classList (element d' n) = classList (element d n) →
  element d' n = element d n.
Proof.
  unfold getAttribute. intros Ha Hc.
  destruct (element d' n) as [m' cl'], (element d n) as [m cl]. simpl in *.
  f_equal; [by apply map_eq | done].
Qed.

Lemma others_controllers (w : Accordion) (d : DOM) (c : node) :
  others w d c ⊆ controllers w.
Proof. intros x Hx. apply elem_of_others in Hx. tauto. Qed.



(** ** C8: the state after construction *)

Lemma forEach_keeps {A} (l : list A) (f : A → M unit) :
  (∀ x σ, document (exec (f x) σ) = document σ ∧ console (exec (f x) σ) = console σ) →
  ∀ σ, document (exec (forEach l f) σ) = document σ
       ∧ console (exec (forEach l f) σ) = console σ.
Proof.
  intros Hf. induction l as [|x l IH]; intros σ; [done|].
  unfold exec in *. cbn [forEach]. unfold bind.
  specialize (Hf x σ). destruct (f x σ) as [[] σ1]. cbn [snd] in Hf.
  destruct Hf as [<- <-]. apply IH.
Qed.

Lemma processControllerEvents_run (w : Accordion) (σ : World) :
  ∃ ls, processControllerEvents w σ = (tt, mkWorld (document σ) (console σ) ls).
Proof.
  destruct (forEach_keeps (controllers w)
              (λ controller, manageRootEvents controller w >> manageControllerEvents controller w)
              (λ x σ, conj eq_refl eq_refl) σ) as [Hd Hc].
  unfold processControllerEvents, exec in *.
  destruct (forEach _ _ σ) as [[] [d' log' ls']]. cbn in Hd, Hc. subst.
  by exists ls'.
Qed.

(** The document after construction: the controllers that default to
    collapsed have been deactivated, in order, and nothing else is written. *)
Lemma document_constructor (given : option Tree) (doc : Tree) (σ0 σ : World) (w : Accordion) :
  constructor given doc σ0 = (Ok w, σ) →
  document σ =
  deactivate_all w (List.filter (defaultsToCollapsed (document σ0)) (controllers w))
    (document σ0).
Proof.
  unfold constructor, bind, readDOM.
  destruct (resolveRoot (document σ0) doc given) as [r|]; [|done].
  unfold initialize, bind.
  destruct (processControllerEvents_run
              (mkAccordion (ref_of r)
                 (enumerateElements (querySelectorAll (document σ0) r ".accordion__button"))
                 (enumerateElements (querySelectorAll (document σ0) r ".accordion__section")))
              σ0) as [ls ->].
  unfold defaultContainersByControllers, bind, readDOM. cbn [document].
  rewrite forEach_deactivate_run. unfold ret. by intros [= <- <-].
Qed.

Lemma valueless_constructed :
  constructor None Sample.tree (Sample.world Valueless.markup)
  = (Ok Sample.widget, Valueless.loaded).
Proof. computed. Qed.

(** C8, the claim as written fails: a controller whose [aria-expanded] is
    present with a value other than ["true"] and ["false"] is not touched by
    the initialization. *)
Lemma C8_counterexample :
  ¬ default_collapse_as_stated None Sample.tree (Sample.world Valueless.markup).
Proof.
  intros H.
  destruct (H Sample.widget Valueless.loaded 1 11 valueless_constructed) as [Hexp _];
    [decided | decided | is_paired | vm_compute; discriminate |].
  vm_compute in Hexp. discriminate Hexp.
Qed.

(** C8, amended: after construction, with unique container identifiers,
    every validly paired controller whose [aria-expanded] is absent or
    ["false"] (in the markup, or equivalently afterwards) has
    [aria-expanded="false"] and its container carries [hidden]. *)
Theorem C8_default_collapse (given : option Tree) (doc : Tree) (σ0 σ : World)
    (w : Accordion) (c k : node) :
  constructor given doc σ0 = (Ok w, σ) →
  uniqueIds (document σ0) (containers w) →
  paired w (document σ0) c k →
  defaultsToCollapsed (document σ0) c = true ∨ defaultsToCollapsed (document σ) c = true →
  getAttribute (document σ) c "aria-expanded" = Some "false"
  ∧ hasAttribute (document σ) k "hidden" = true.
Proof.
  intros Hnew Huk Hp Hdef.
  pose proof (document_constructor given doc σ0 σ w Hnew) as Hdoc.
  generalize dependent (document σ0). intros d0 Huk Hp Hdef Hdoc.
  set (L := List.filter (defaultsToCollapsed d0) (controllers w)) in *.
  pose proof (collapses_deactivate_all w L L d0 (reflexivity L)) as (_ & E & _ & _).
  rewrite <- Hdoc in E.
  assert (c ∈ L) as Hin.
  { destruct (E c) as [Heq|[? _]]; [|done].
    apply list_elem_of_In, filter_In. split; [apply list_elem_of_In, Hp|].
    destruct Hdef as [?|Hpost]; [done|].
    unfold defaultsToCollapsed, hasAttribute in *. by rewrite <- Heq. }
  destruct (deactivate_all_closes w L d0 c k Hin (paired_validated w d0 c k Huk Hp))
    as [He Hh].
  rewrite Hdoc. split; [done|]. apply hasAttribute_true. by rewrite Hh.
Qed.

Lemma C8_default_collapse_witness :
  let σ := exec (constructor None Sample.tree) (Sample.world (Sample.page [])) in
  getAttribute (document σ) 1 "aria-expanded" = Some "false"
  ∧ hasAttribute (document σ) 11 "hidden" = true.
Proof.
  intros σ.
  apply (C8_default_collapse None Sample.tree (Sample.world (Sample.page [])) σ
           Sample.widget 1 11);
    [computed | decided | is_paired | left; computed].
Defined.

(** When the markup leaves every validly paired controller without
    [aria-expanded] or with ["false"], construction establishes the
    coherence that the toggles then preserve. *)
Lemma coherent_after_construction (given : option Tree) (doc : Tree) (σ0 σ : World)
    (w : Accordion) :
  constructor given doc σ0 = (Ok w, σ) →
  uniqueIds (document σ0) (containers w) →
  (∀ c k, paired w (document σ0) c k → defaultsToCollapsed (document σ0) c = true) →
  coherent w (document σ).
Proof.
  intros Hnew Huk Hall.
  pose proof (document_constructor given doc σ0 σ w Hnew) as Hdoc.
  generalize dependent (document σ0). intros d0 Huk Hall Hdoc.
  set (L := List.filter (defaultsToCollapsed d0) (controllers w)) in *.
  pose proof (proj1 (collapses_deactivate_all w L L d0 (reflexivity L))) as Hs.
  rewrite <- Hdoc in Hs.
  apply coherent_pairs. intros c k Hp.
  apply (paired_same w _ d0 c k (sameElsewhere_sym _ _ Hs)) in Hp.
  assert (c ∈ L) as Hin.
  { apply list_elem_of_In, filter_In. split; [apply list_elem_of_In, Hp | by apply (Hall c k)]. }
  destruct (deactivate_all_closes w L d0 c k Hin (paired_validated w d0 c k Huk Hp))
    as [He Hh].
  rewrite Hdoc, hasAttribute_false, He, Hh. done.
Qed.

(** ** C9: keyboard navigation *)

Lemma at_index_nat (l : list node) (i : nat) : at_index l (Z.of_nat i) = l !! i.
Proof.
  unfold at_index. destruct (Z.ltb_spec (Z.of_nat i) 0) as [?|_]; [lia|].
  by rewrite Nat2Z.id.
Qed.

Lemma getLastController_lookup (w : Accordion) :
  controllers w ≠ [] →
  getLastController w = controllers w !! (length (controllers w) - 1)%nat.
Proof.
  intros Hne. unfold getLastController.
  destruct (controllers w) as [|x l]; [done|].
  rewrite <- at_index_nat. f_equal. simpl length. lia.
Qed.

Lemma indexOf_lookup (l : list node) (x : node) (i : nat) :
  NoDup l → l !! i = Some x → indexOf l x = Z.of_nat i.
Proof.
  intros Hnd Hi. unfold indexOf.
  destruct (list_find (λ y, y = x) l) as [[j y]|] eqn:Hfind.
  - apply list_find_Some in Hfind as (Hj & -> & _).
    f_equal. by apply (NoDup_lookup l j i x).
  - apply list_find_None in Hfind. rewrite Forall_forall in Hfind.
    exfalso. apply (Hfind x); [|done]. by apply list_elem_of_lookup_2 in Hi.
Qed.

Lemma Home_key (ctrl : bool) :
  isKeyup (mkKey "Home" ctrl) = false ∧ isKeydown (mkKey "Home" ctrl) = false
  ∧ matchIgnoreCase "home" "Home" = true ∧ matchIgnoreCase "end" "Home" = false.
Proof. by destruct ctrl. Qed.

Lemma End_key (ctrl : bool) :
  isKeyup (mkKey "End" ctrl) = false ∧ isKeydown (mkKey "End" ctrl) = false
  ∧ matchIgnoreCase "home" "End" = false ∧ matchIgnoreCase "end" "End" = true.
Proof. by destruct ctrl. Qed.

(** C9: in a widget with a non-empty sequence of distinct controllers, with
    [first] at index 0 and [last] at index length-1, the previous controller
    of [first] is [last], the next controller of [last] is [first], and from
    every controller the Home key focuses [first] and the End key focuses
    [last] (each after preventing the default action). *)
Theorem C9_keyboard (w : Accordion) :
  NoDup (controllers w) →
  controllers w ≠ [] →
  ∃ first last,
    controllers w !! 0%nat = Some first
    ∧ controllers w !! (length (controllers w) - 1)%nat = Some last
    ∧ getPrevController first w = Some last
    ∧ getNextController last w = Some first
    ∧ ∀ controller ctrl,
        navigateControllerEvent controller w (mkKey "Home" ctrl)
        = [PreventDefault; Focus first]
        ∧ navigateControllerEvent controller w (mkKey "End" ctrl)
          = [PreventDefault; Focus last].
Proof.
  intros Hnd Hne.
  destruct (controllers w) as [|x l] eqn:Hcs; [done|].
  destruct (lookup_lt_is_Some_2 (x :: l) (length (x :: l) - 1)) as [y Hy];
    [simpl; lia|].
  assert (getFirstController w = Some x) as Hfirst.
  { unfold getFirstController. by rewrite (at_index_nat _ 0), Hcs. }
  assert (getLastController w = Some y) as Hlast.
  { rewrite getLastController_lookup; by rewrite Hcs. }
  exists x, y. repeat split; try done.
  - unfold getPrevController.
    rewrite Hcs, (indexOf_lookup (x :: l) x 0 Hnd eq_refl), <- Hcs. by rewrite Hlast.
  - unfold getNextController.
    rewrite Hcs, (indexOf_lookup (x :: l) y _ Hnd Hy), <- Hcs.
    destruct (_ <=? _)%Z eqn:Hle; [|exact Hfirst].
    apply Z.leb_le in Hle. rewrite Hcs in Hle. simpl length in Hle. lia.
  - unfold navigateControllerEvent. cbn [key].
    destruct (Home_key ctrl) as (-> & -> & -> & ->). by rewrite Hfirst.
  - unfold navigateControllerEvent. cbn [key].
    destruct (End_key ctrl) as (-> & -> & -> & ->). by rewrite Hlast.
Qed.

Lemma C9_keyboard_witness :
  ∃ first last,
    controllers Sample.widget !! 0%nat = Some first
    ∧ controllers Sample.widget !! (length (controllers Sample.widget) - 1)%nat = Some last
    ∧ getPrevController first Sample.widget = Some last
    ∧ getNextController last Sample.widget = Some first
    ∧ ∀ controller ctrl,
        navigateControllerEvent controller Sample.widget (mkKey "Home" ctrl)
        = [PreventDefault; Focus first]
        ∧ navigateControllerEvent controller Sample.widget (mkKey "End" ctrl)
          = [PreventDefault; Focus last].
Proof. apply (C9_keyboard Sample.widget); [decided | done]. Defined.

(** ** C10: what a toggle can write *)

Lemma writes_within_refl (w : Accordion) (c : node) (d : DOM) : writes_within w c d d.
Proof. by intros n a H. Qed.

Lemma writes_within_trans (w : Accordion) (c : node) (d1 d2 d3 : DOM) :
  writes_within w c d1 d2 → writes_within w c d2 d3 → writes_within w c d1 d3.
Proof.
  intros H12 H23 n a Hne.
  destruct (decide (getAttribute d3 n a = getAttribute d2 n a)) as [Heq|Hne'].
  - apply H12. by rewrite <- Heq.
  - by apply H23.
Qed.

Lemma writes_within_collapses (w : Accordion) (c : node) (L : list node) (d d' : DOM) :
  L ⊆ controllers w → collapses w L d d' → writes_within w c d d'.
Proof.
  intros HL Hcol n a Hne.
  destruct (decide (a = "aria-expanded")) as [->|Hne1].
  { left. split; [by left|]. right. apply HL.
    destruct Hcol as (_ & E & _). destruct (E n) as [?|[? _]]; done. }
  destruct (decide (a = "aria-disabled")) as [->|Hne2].
  { left. split; [by right|]. right. apply HL.
    destruct Hcol as (_ & _ & _ & D). destruct (D n) as [?|[? _]]; done. }
  destruct (decide (a = "hidden")) as [->|Hne3].
  { right. split; [done|].
    destruct Hcol as (_ & _ & H & _). destruct (H n) as [?|[? _]]; done. }
  exfalso. apply Hne, (proj1 Hcol). unfold written. tauto.
Qed.

Lemma writes_within_activate_dom (w : Accordion) (c : node) (d : DOM) :
  writes_within w c d (activate_dom w c d).
Proof.
  unfold activate_dom. destruct (validated w d c) as [k|] eqn:Hv;
    [|apply writes_within_refl].
  apply validated_container in Hv as (Hk & _).
  intros n a. rewrite getAttribute_activated. attr_cases; tauto.
Qed.

Lemma writes_within_deactivate_dom (w : Accordion) (c : node) (d : DOM) :
  writes_within w c d (deactivate_dom w c d).
Proof.
  unfold deactivate_dom. destruct (validated w d c) as [k|] eqn:Hv;
    [|apply writes_within_refl].
  apply validated_container in Hv as (Hk & _).
  intros n a. rewrite getAttribute_deactivated. attr_cases; tauto.
Qed.

Lemma writes_within_toggle_dom (w : Accordion) (c : node) (d : DOM) :
  writes_within w c d (toggle_dom w c d).
Proof.
  unfold toggle_dom.
  eapply writes_within_trans.
  - apply (writes_within_collapses w c (others w d c));
      [apply others_controllers | apply collapses_collapseOthers].
  - destruct (negb _); [apply writes_within_activate_dom|].
    destruct (_ && _); [apply writes_within_deactivate_dom | apply writes_within_refl].
Qed.

Lemma foreign_constructed :
  constructor None Foreign.tree (Sample.world Foreign.markup)
  = (Ok Sample.widget, Foreign.loaded).
Proof. computed. Qed.

(** C10, the claim as written fails: the public toggle, called with a button
    that is not a controller of the widget but names one of its containers,
    writes [aria-expanded] on that button. *)
Lemma C10_counterexample : ¬ frame_as_stated Sample.widget Foreign.loaded 4.
Proof.
  intros H. destruct H as (Hw & _); [decided | decided |].
  destruct (Hw 4 "aria-expanded") as [[_ Hin]|[Hne _]]; [vm_compute; discriminate | |done].
  apply list_elem_of_In in Hin. simpl in Hin. intuition discriminate.
Qed.

(** C10, amended: a toggle of a controller of the widget (whose root is not
    among its controllers or containers) changes at most [aria-expanded] and
    [aria-disabled] on controllers of the widget and [hidden] on containers
    of the widget; identifiers, [aria-controls], [aria-labelledby], the
    classes of every element and the whole root element stay as they were.
    The sequences of the widget are immutable values here, and the
    listeners are untouched. *)
Theorem C10_frame (w : Accordion) (σ : World) (c : node) :
  c ∈ controllers w →
  root w ∉ controllers w → root w ∉ containers w →
  let d := document σ in
  let d' := document (exec (updateContainerByController w c) σ) in
  (∀ n a, getAttribute d' n a ≠ getAttribute d n a →
          ((a = "aria-expanded" ∨ a = "aria-disabled") ∧ n ∈ controllers w)
          ∨ (a = "hidden" ∧ n ∈ containers w))
  ∧ (∀ n, id_of d' n = id_of d n
          ∧ getAttribute d' n "aria-controls" = getAttribute d n "aria-controls"
          ∧ getAttribute d' n "aria-labelledby" = getAttribute d n "aria-labelledby"
          ∧ classList (element d' n) = classList (element d n))
  ∧ element d' (root w) = element d (root w)
  ∧ listeners (exec (updateContainerByController w c) σ) = listeners σ.
Proof.
  intros Hc Hr1 Hr2 d d'. subst d d'. rewrite document_update, listeners_update.
  pose proof (writes_within_toggle_dom w c (document σ)) as Hw.
  pose proof (sameElsewhere_toggle_dom w c (document σ)) as Hs.
  assert (∀ n a, getAttribute (toggle_dom w c (document σ)) n a ≠ getAttribute (document σ) n a →
                 ((a = "aria-expanded" ∨ a = "aria-disabled") ∧ n ∈ controllers w)
                 ∨ (a = "hidden" ∧ n ∈ containers w)) as Hw'.
  { intros n a Hne. destruct (Hw n a Hne) as [[Ha [->|Hn]]|?]; auto. }
  split; [done|]. split; [|split; [|done]].
  - intros n. repeat split.
    + by apply id_of_same.
    + apply Hs, not_written_controls.
    + apply Hs, not_written_labelledby.
    + apply Hs.
  - apply element_ext; [|apply Hs]. intros a.
    destruct (decide (getAttribute (toggle_dom w c (document σ)) (root w) a
                      = getAttribute (document σ) (root w) a)) as [?|Hne]; [done|].
    destruct (Hw' _ _ Hne) as [[_ ?]|[_ ?]]; done.
Qed.

Lemma C10_frame_witness :
  let σ := exec (constructor None Sample.tree) (Sample.world (Sample.page [])) in
  let d := document σ in
  let d' := document (exec (updateContainerByController Sample.widget 1) σ) in
  (∀ n a, getAttribute d' n a ≠ getAttribute d n a →
          ((a = "aria-expanded" ∨ a = "aria-disabled") ∧ n ∈ controllers Sample.widget)
          ∨ (a = "hidden" ∧ n ∈ containers Sample.widget))
  ∧ (∀ n, id_of d' n = id_of d n
          ∧ getAttribute d' n "aria-controls" = getAttribute d n "aria-controls"
          ∧ getAttribute d' n "aria-labelledby" = getAttribute d n "aria-labelledby"
          ∧ classList (element d' n) = classList (element d n))
  ∧ element d' (root Sample.widget) = element d (root Sample.widget)
  ∧ listeners (exec (updateContainerByController Sample.widget 1) σ) = listeners σ.
Proof.
  intros σ. apply (C10_frame Sample.widget σ 1); [member | decided | decided].
Defined.

(** ** The collapsed state of a valid pair after construction *)

Section Settled.
Context (w : Accordion) (d0 : DOM) (Huk : uniqueIds d0 (containers w)).

Lemma validated_of_pair (d : DOM) (c k kx : node) :
  sameElsewhere d0 d → paired w d0 c k → validated w d c = Some kx → kx = k.
Proof.
  intros Hs Hp Hv.
  rewrite (validated_same w d0 d Hs), (paired_validated w d0 c k Huk Hp) in Hv.
  congruence.
Qed.

Lemma settled_deactivate_dom (x : node) (d : DOM) :
  settled w d0 d → settled w d0 (deactivate_dom w x d).
Proof.
  intros [Hs H]. split.
  { eapply sameElsewhere_trans; [done | apply sameElsewhere_deactivate_dom]. }
  intros c k Hp. destruct (H c k Hp) as [H1 H2]. unfold deactivate_dom.
  destruct (validated w d x) as [kx|] eqn:Hv; [|done].
  rewrite !getAttribute_deactivated.
  destruct (decide (c = x)) as [->|Hne].
  - rewrite (validated_of_pair d x k kx Hs Hp Hv). attr_cases. split; [done | by right].
  - attr_cases; split; try done; by right.
Qed.

Lemma settled_activate_dom (x : node) (d : DOM) :
  settled w d0 d → settled w d0 (activate_dom w x d).
Proof.
  intros [Hs H]. split.
  { eapply sameElsewhere_trans; [done | apply sameElsewhere_activate_dom]. }
  intros c k Hp. destruct (H c k Hp) as [H1 H2]. unfold activate_dom.
  destruct (validated w d x) as [kx|] eqn:Hv; [|done].
  rewrite !getAttribute_activated.
  destruct (decide (c = x)) as [->|Hne].
  - rewrite (validated_of_pair d x k kx Hs Hp Hv). attr_cases.
  - attr_cases; split; try done; by left.
Qed.

Lemma settled_defaults :
  settled w d0 (deactivate_all w (List.filter (defaultsToCollapsed d0) (controllers w)) d0).
Proof.
  set (L := List.filter (defaultsToCollapsed d0) (controllers w)).
  pose proof (collapses_deactivate_all w L L d0 (reflexivity L)) as (Hs & E & _).
  split; [done|]. intros c k Hp.
  destruct (decide (c ∈ L)) as [Hin|Hout].
  - destruct (deactivate_all_closes w L d0 c k Hin (paired_validated w d0 c k Huk Hp))
      as [-> ->].
    split; [done | by right].
  - destruct (E c) as [->|[? _]]; [|done].
    assert (defaultsToCollapsed d0 c = false) as Hdef.
    { apply not_true_is_false. intros Hdef. apply Hout.
      apply list_elem_of_In, filter_In. split; [apply list_elem_of_In, Hp | done]. }
    unfold defaultsToCollapsed, hasAttribute in Hdef.
    destruct (getAttribute d0 c "aria-expanded") as [v|]; [|done].
    split; [done|]. intros [= ->]. done.
Qed.
End Settled.

(** In every state reached from construction by toggles of controllers,
    with unique container identifiers, a valid pair that is collapsed
    (controller without [aria-expanded] or with ["false"], container with
    [hidden]) has exactly [aria-expanded="false"] and [hidden=""]. *)
Lemma collapsed_after_construction (given : option Tree) (doc : Tree) (σ0 σ σ' : World)
    (w : Accordion) (c k : node) :
  constructor given doc σ0 = (Ok w, σ) →
  uniqueIds (document σ0) (containers w) →
  toggles w σ σ' →
  paired w (document σ0) c k →
  defaultsToCollapsed (document σ') c = true →
  hasAttribute (document σ') k "hidden" = true →
  getAttribute (document σ') c "aria-expanded" = Some "false"
  ∧ getAttribute (document σ') k "hidden" = Some "".
Proof.
  intros Hnew Huk Hrun Hp Hdef Hhid.
  assert (settled w (document σ0) (document σ')) as [_ Hset].
  { apply (toggles_invariant w (settled w (document σ0))
             (λ x d _, settled_deactivate_dom w _ Huk x d)
             (λ x d _, settled_activate_dom w _ Huk x d) σ σ' Hrun).
    rewrite (document_constructor given doc σ0 σ w Hnew).
    by apply settled_defaults. }
  destruct (Hset c k Hp) as [Hsome Hfalse].
  unfold defaultsToCollapsed, hasAttribute in Hdef, Hhid.
  destruct (getAttribute (document σ') c "aria-expanded") as [v|]; [|done].
  simpl in Hdef. apply bool_decide_eq_true in Hdef as [= ->].
  split; [done|].
  destruct (Hfalse eq_refl) as [Hk|Hk]; rewrite Hk in Hhid; done.
Qed.

(** ** The sequences of a constructed widget *)

Lemma subtrees_descendants (t : Tree) : subtrees t = t :: descendants t.
Proof. by destruct t. Qed.

Lemma elem_of_map_filter {A B} (f : A → B) (P : A → bool) (l : list A) (y : B) :
  y ∈ map f (List.filter P l) → y ∈ map f l.
Proof.
  induction l as [|x l IH]; simpl; [done|].
  destruct (P x); simpl; rewrite ?elem_of_cons; [|by right; apply IH].
  intros [->|Hin]; [by left | by right; apply IH].
Qed.

Lemma NoDup_map_filter {A B} (f : A → B) (P : A → bool) (l : list A) :
  NoDup (map f l) → NoDup (map f (List.filter P l)).
Proof.
  induction l as [|x l IH]; simpl; [done|].
  rewrite NoDup_cons. intros [Hx Hl].
  destruct (P x); simpl; [|by apply IH].
  apply NoDup_cons. split; [|by apply IH].
  intros Hin. by apply Hx, (elem_of_map_filter f P).
Qed.

(** In a document whose elements are pairwise different, the constructor
    yields sequences without repetition that do not contain the root. *)
Lemma constructor_distinct (given : option Tree) (doc : Tree) (σ0 σ : World) (w : Accordion) :
  constructor given doc σ0 = (Ok w, σ) →
  (∀ r, resolveRoot (document σ0) doc given = Some r → NoDup (map ref_of (subtrees r))) →
  NoDup (controllers w) ∧ NoDup (containers w)
  ∧ (root w ∉ controllers w) ∧ (root w ∉ containers w).
Proof.
  unfold constructor, bind, readDOM.
  destruct (resolveRoot (document σ0) doc given) as [r|]; [|done].
  destruct (initialize _ σ0) as [[] σ1]. unfold ret. intros [= <- <-] Hnd.
  specialize (Hnd r eq_refl). rewrite subtrees_descendants in Hnd.
  cbn [map] in Hnd. apply NoDup_cons in Hnd as [Hroot Hnd].
  unfold enumerateElements, querySelectorAll. cbn [root controllers containers].
  repeat split.
  - by apply NoDup_map_filter.
  - by apply NoDup_map_filter.
  - intros Hin. by apply Hroot, (elem_of_map_filter ref_of _ _ _ Hin).
  - intros Hin. by apply Hroot, (elem_of_map_filter ref_of _ _ _ Hin).
Qed.


(** * Further properties of the code *)

Set Warnings "-clear-no-such-hyp".

(** ** The order of the keyboard navigation *)

Lemma indexOf_absent (l : list node) (x : node) : x ∉ l → indexOf l x = (-1)%Z.
Proof.
  intros Hx. unfold indexOf.
  destruct (list_find (λ y, y = x) l) as [[i y]|] eqn:Hfind; [|done].
  apply list_find_Some in Hfind as (Hi & -> & _).
  exfalso. apply Hx. by apply list_elem_of_lookup_2 in Hi.
Qed.

Lemma indexOf_bounds (l : list node) (x : node) :
  (-1 ≤ indexOf l x < Z.of_nat (length l))%Z.
Proof.
  unfold indexOf.
  destruct (list_find (λ y, y = x) l) as [[i y]|] eqn:Hfind; [|lia].
  apply list_find_Some in Hfind as (Hi & _). apply lookup_lt_Some in Hi. lia.
Qed.

Lemma getNextController_lookup (w : Accordion) (i : nat) (c : node) :
  NoDup (controllers w) → controllers w !! i = Some c →
  getNextController c w = controllers w !! ((i + 1) mod length (controllers w))%nat.
Proof.
  intros Hnd Hi. pose proof (lookup_lt_Some _ _ _ Hi) as Hlt.
  unfold getNextController. rewrite (indexOf_lookup _ _ _ Hnd Hi).
  destruct (Z.leb_spec (Z.of_nat i + 1) (Z.of_nat (length (controllers w)) - 1)) as [Hle|Hgt].
  - replace (Z.of_nat i + 1)%Z with (Z.of_nat (i + 1)) by lia.
    rewrite at_index_nat, Nat.mod_small by lia. done.
  - replace (i + 1)%nat with (length (controllers w)) by lia.
    rewrite Nat.Div0.mod_same. unfold getFirstController. apply (at_index_nat _ 0).
Qed.

Lemma getPrevController_lookup (w : Accordion) (i : nat) (c : node) :
  NoDup (controllers w) → controllers w !! i = Some c →
  getPrevController c w
  = controllers w !! ((i + length (controllers w) - 1) mod length (controllers w))%nat.
Proof.
  intros Hnd Hi. pose proof (lookup_lt_Some _ _ _ Hi) as Hlt.
  unfold getPrevController. rewrite (indexOf_lookup _ _ _ Hnd Hi).
  destruct (Z.leb_spec 0 (Z.of_nat i - 1)) as [Hle|Hgt].
  - replace (Z.of_nat i - 1)%Z with (Z.of_nat (i - 1)) by lia.
    rewrite at_index_nat.
    replace (i + length (controllers w) - 1)%nat
      with ((i - 1) + 1 * length (controllers w))%nat by lia.
    rewrite Nat.Div0.mod_add, Nat.mod_small by lia. done.
  - assert (i = 0)%nat as -> by lia.
    rewrite getLastController_lookup by (intros Hnil; rewrite Hnil in Hlt; simpl in Hlt; lia).
    rewrite Nat.mod_small by lia. f_equal.
Qed.

(** The controllers form a cycle in sequence order: from the controller at
    index [i], the next one is at index [i+1] and the previous one at index
    [i-1], both modulo the length. *)
Theorem keyboard_cycle (w : Accordion) (i : nat) (c : node) :
  NoDup (controllers w) → controllers w !! i = Some c →
  getNextController c w = controllers w !! ((i + 1) mod length (controllers w))%nat
  ∧ getPrevController c w
    = controllers w !! ((i + length (controllers w) - 1) mod length (controllers w))%nat.
Proof.
  intros Hnd Hi. split.
  - by apply getNextController_lookup.
  - by apply getPrevController_lookup.
Qed.

Lemma keyboard_cycle_witness :
  getNextController 2 Stray.widget = controllers Stray.widget !! ((1 + 1) mod 3)%nat
  ∧ getPrevController 2 Stray.widget = controllers Stray.widget !! ((1 + 3 - 1) mod 3)%nat.
Proof. apply (keyboard_cycle Stray.widget 1 2); [decided | computed]. Defined.

(** Next and previous undo each other on every controller of the
    sequence. *)
Theorem next_prev_inverse (w : Accordion) (c : node) :
  NoDup (controllers w) → c ∈ controllers w →
  (∃ n, getNextController c w = Some n ∧ n ∈ controllers w
        ∧ getPrevController n w = Some c)
  ∧ (∃ p, getPrevController c w = Some p ∧ p ∈ controllers w
          ∧ getNextController p w = Some c).
Proof.
  intros Hnd Hc. apply list_elem_of_lookup in Hc as [i Hi].
  pose proof (lookup_lt_Some _ _ _ Hi) as Hlt.
  set (len := length (controllers w)) in *.
  split.
  - destruct (lookup_lt_is_Some_2 (controllers w) ((i + 1) mod len)) as [n Hn].
    { apply Nat.mod_upper_bound. lia. }
    exists n. rewrite (getNextController_lookup w i c Hnd Hi). fold len.
    split; [done|]. split; [by apply list_elem_of_lookup_2 in Hn|].
    rewrite (getPrevController_lookup w _ n Hnd Hn), <- Hi. fold len. f_equal.
    destruct (decide (i + 1 = len)) as [Heq|Hne].
    + rewrite Heq, Nat.Div0.mod_same. rewrite Nat.mod_small by lia. lia.
    + rewrite (Nat.mod_small (i + 1)) by lia.
      replace (i + 1 + len - 1)%nat with (i + 1 * len)%nat by lia.
      rewrite Nat.Div0.mod_add, Nat.mod_small by lia. done.
  - destruct (lookup_lt_is_Some_2 (controllers w) ((i + len - 1) mod len)) as [p Hp].
    { apply Nat.mod_upper_bound. lia. }
    exists p. rewrite (getPrevController_lookup w i c Hnd Hi). fold len.
    split; [done|]. split; [by apply list_elem_of_lookup_2 in Hp|].
    rewrite (getNextController_lookup w _ p Hnd Hp), <- Hi. fold len. f_equal.
    destruct (decide (i = 0)%nat) as [->|Hne].
    + rewrite (Nat.mod_small (0 + len - 1)) by lia.
      replace (0 + len - 1 + 1)%nat with len by lia. apply Nat.Div0.mod_same.
    + replace (i + len - 1)%nat with ((i - 1) + 1 * len)%nat by lia.
      rewrite Nat.Div0.mod_add, (Nat.mod_small (i - 1)) by lia.
      rewrite Nat.mod_small by lia. lia.
Qed.

Lemma next_prev_inverse_witness :
  (∃ n, getNextController 3 Stray.widget = Some n ∧ n ∈ controllers Stray.widget
        ∧ getPrevController n Stray.widget = Some 3)
  ∧ (∃ p, getPrevController 3 Stray.widget = Some p ∧ p ∈ controllers Stray.widget
          ∧ getNextController p Stray.widget = Some 3).
Proof. apply (next_prev_inverse Stray.widget 3); [decided | member]. Defined.

(** An element that is not in the sequence: its next controller is the
    first one and its previous controller the last one ([indexOf] is -1). *)
Theorem navigation_from_outside (w : Accordion) (c : node) :
  c ∉ controllers w →
  getNextController c w = getFirstController w
  ∧ getPrevController c w = getLastController w.
Proof.
  intros Hc. unfold getNextController, getPrevController.
  rewrite (indexOf_absent _ _ Hc). split.
  - change (-1 + 1)%Z with 0%Z. by destruct (_ <=? _)%Z.
  - done.
Qed.

Lemma navigation_from_outside_witness :
  getNextController 11 Sample.widget = getFirstController Sample.widget
  ∧ getPrevController 11 Sample.widget = getLastController Sample.widget.
Proof. apply (navigation_from_outside Sample.widget 11). decided. Defined.

(** ** What the key handler does *)

Lemma at_index_member (l : list node) (i : Z) :
  (0 ≤ i < Z.of_nat (length l))%Z → ∃ x, at_index l i = Some x ∧ x ∈ l.
Proof.
  intros Hi. unfold at_index. destruct (Z.ltb_spec i 0) as [?|_]; [lia|].
  destruct (lookup_lt_is_Some_2 l (Z.to_nat i)) as [x Hx]; [lia|].
  exists x. split; [done|]. by apply list_elem_of_lookup_2 in Hx.
Qed.

(** On a non-empty sequence each of the four lookups yields a controller
    of the sequence, whatever the element they start from. *)
Lemma lookups_defined (w : Accordion) (c : node) :
  controllers w ≠ [] →
  (∃ f, getFirstController w = Some f ∧ f ∈ controllers w)
  ∧ (∃ l, getLastController w = Some l ∧ l ∈ controllers w)
  ∧ (∃ n, getNextController c w = Some n ∧ n ∈ controllers w)
  ∧ (∃ p, getPrevController c w = Some p ∧ p ∈ controllers w).
Proof.
  intros Hne.
  assert (0 < Z.of_nat (length (controllers w)))%Z as Hlen.
  { destruct (controllers w); [done | simpl; lia]. }
  pose proof (indexOf_bounds (controllers w) c) as Hidx.
  assert (∃ f, getFirstController w = Some f ∧ f ∈ controllers w) as Hf
    by (apply at_index_member; lia).
  assert (∃ l, getLastController w = Some l ∧ l ∈ controllers w) as Hl
    by (apply at_index_member; lia).
  split; [done|]. split; [done|]. split.
  - unfold getNextController. destruct (_ <=? _)%Z eqn:Hle; [|done].
    apply Z.leb_le in Hle. apply at_index_member. lia.
  - unfold getPrevController. destruct (_ <=? _)%Z eqn:Hle; [|done].
    apply Z.leb_le in Hle. apply at_index_member. lia.
Qed.

(** With at least one controller the key handler never throws, focuses only
    controllers of the widget, and prevents the default action exactly when
    one of its four tests holds. *)
Theorem handler_safe (w : Accordion) (c : node) (event : KeyboardEvent) :
  controllers w ≠ [] →
  let actions := navigateControllerEvent c w event in
  (Throws ∉ actions)
  ∧ (∀ t, Focus t ∈ actions → t ∈ controllers w)
  ∧ (PreventDefault ∈ actions ↔ handled event = true).
Proof.
  intros Hne actions. subst actions.
  destruct (lookups_defined w c Hne)
    as ((f & Hf & Hfin) & (l & Hl & Hlin) & (n & Hn & Hnin) & (p & Hp & Hpin)).
  unfold navigateControllerEvent, handled. rewrite Hf, Hl, Hn, Hp.
  destruct (isKeyup event), (isKeydown event), (matchIgnoreCase "home" (key event)),
    (matchIgnoreCase "end" (key event)); cbn [focusThen orb];
    (split; [|split]); set_solver.
Qed.

Lemma handler_safe_witness :
  let actions := navigateControllerEvent 1 Sample.widget (mkKey "ArrowDown" false) in
  (Throws ∉ actions)
  ∧ (∀ t, Focus t ∈ actions → t ∈ controllers Sample.widget)
  ∧ (PreventDefault ∈ actions ↔ handled (mkKey "ArrowDown" false) = true).
Proof. apply (handler_safe Sample.widget 1 (mkKey "ArrowDown" false)). done. Defined.

(** Without controllers every lookup is [undefined]: a key that the handler
    tests for prevents the default action and then throws at the first
    [focus]; any other key does nothing. *)
Theorem handler_on_empty (w : Accordion) (c : node) (event : KeyboardEvent) :
  controllers w = [] →
  navigateControllerEvent c w event
  = if handled event then [PreventDefault; Throws] else [].
Proof.
  intros Hnil.
  unfold navigateControllerEvent, handled, getPrevController, getNextController,
    getFirstController, getLastController, indexOf.
  rewrite Hnil. cbn.
  by destruct (isKeyup event), (isKeydown event), (matchIgnoreCase "home" (key event)),
    (matchIgnoreCase "end" (key event)).
Qed.

Lemma handler_on_empty_witness :
  navigateControllerEvent 1 (mkAccordion 0 [] [11]) (mkKey "Home" false)
  = if handled (mkKey "Home" false) then [PreventDefault; Throws] else [].
Proof. apply (handler_on_empty (mkAccordion 0 [] [11]) 1 (mkKey "Home" false)). done. Defined.

(** The keys of the handler: ArrowUp, Up and Ctrl+PageUp focus the previous
    controller, ArrowDown, Down and Ctrl+PageDown the next one, each after
    preventing the default action; the name is compared in lower case, so
    that UP and down are accepted; PageUp and PageDown without Ctrl do
    nothing. *)
Theorem arrow_keys (w : Accordion) (c : node) (ctrl : bool) :
  controllers w ≠ [] →
  ∃ p n,
    getPrevController c w = Some p ∧ getNextController c w = Some n
    ∧ navigateControllerEvent c w (mkKey "ArrowUp" ctrl) = [PreventDefault; Focus p]
    ∧ navigateControllerEvent c w (mkKey "UP" ctrl) = [PreventDefault; Focus p]
    ∧ navigateControllerEvent c w (mkKey "PageUp" true) = [PreventDefault; Focus p]
    ∧ navigateControllerEvent c w (mkKey "PageUp" false) = []
    ∧ navigateControllerEvent c w (mkKey "ArrowDown" ctrl) = [PreventDefault; Focus n]
    ∧ navigateControllerEvent c w (mkKey "down" ctrl) = [PreventDefault; Focus n]
    ∧ navigateControllerEvent c w (mkKey "PageDown" true) = [PreventDefault; Focus n]
    ∧ navigateControllerEvent c w (mkKey "PageDown" false) = [].
Proof.
  intros Hne.
  destruct (lookups_defined w c Hne) as (_ & _ & (n & Hn & _) & (p & Hp & _)).
  exists p, n. split; [done|]. split; [done|].
  unfold navigateControllerEvent. rewrite Hn, Hp.
  destruct ctrl; repeat split; vm_compute; reflexivity.
Qed.

Lemma arrow_keys_witness :
  ∃ p n,
    getPrevController 1 Sample.widget = Some p ∧ getNextController 1 Sample.widget = Some n
    ∧ navigateControllerEvent 1 Sample.widget (mkKey "ArrowUp" true) = [PreventDefault; Focus p]
    ∧ navigateControllerEvent 1 Sample.widget (mkKey "UP" true) = [PreventDefault; Focus p]
    ∧ navigateControllerEvent 1 Sample.widget (mkKey "PageUp" true) = [PreventDefault; Focus p]
    ∧ navigateControllerEvent 1 Sample.widget (mkKey "PageUp" false) = []
    ∧ navigateControllerEvent 1 Sample.widget (mkKey "ArrowDown" true) = [PreventDefault; Focus n]
    ∧ navigateControllerEvent 1 Sample.widget (mkKey "down" true) = [PreventDefault; Focus n]
    ∧ navigateControllerEvent 1 Sample.widget (mkKey "PageDown" true) = [PreventDefault; Focus n]
    ∧ navigateControllerEvent 1 Sample.widget (mkKey "PageDown" false) = [].
Proof. apply (arrow_keys Sample.widget 1 true). done. Defined.






(** ** The focus state of the root *)







(** ** Validation and the lookup of the container *)

Lemma find_first {A} (P : A → bool) (l : list A) (k : A) :
  List.find P l = Some k →
  ∃ pre post, l = pre ++ k :: post ∧ P k = true ∧ ∀ x, x ∈ pre → P x = false.
Proof.
  induction l as [|y l IH]; [done|]. simpl.
  destruct (P y) eqn:Hy.
  - intros [= ->]. exists [], l. split; [done|]. split; [done|].
    intros x Hx. by apply elem_of_nil in Hx.
  - intros Hfind. destruct (IH Hfind) as (pre & post & -> & Hk & Hpre).
    exists (y :: pre), post. split; [done|]. split; [done|].
    intros x Hx. apply elem_of_cons in Hx as [->|Hx]; auto.
Qed.

Lemma existsb_find_none {A} (P : A → bool) (l : list A) :
  existsb P l = false → List.find P l = None.
Proof.
  induction l as [|y l IH]; [done|]. simpl.
  destruct (P y); [done|]. apply IH.
Qed.

(** [isController] changes neither the document nor the listeners.  When it
    answers [true] it logs nothing and [getContainerByController] finds a
    container: the first one of the sequence whose [id] is the controller's
    [aria-controls].  When it answers [false] it logs one diagnostic for the
    controller, no container of the sequence has that [id], and the lookup is
    [undefined]. *)
Theorem isController_guards_lookup (w : Accordion) (c : node) (σ : World) :
  let ok := eval (isController w c) σ in
  let σ' := exec (isController w c) σ in
  let d := document σ in
  document σ' = d ∧ listeners σ' = listeners σ
  ∧ (ok = true →
     console σ' = console σ
     ∧ ∃ pre k post,
         containers w = pre ++ k :: post
         ∧ getContainerByController w d c = Some k
         ∧ getAttribute d c "aria-controls" = Some (id_of d k)
         ∧ ∀ x, x ∈ pre → getAttribute d c "aria-controls" ≠ Some (id_of d x))
  ∧ (ok = false →
     console σ' = console σ ++ [ControllerMismatch c]
     ∧ getContainerByController w d c = None
     ∧ ∀ k, k ∈ containers w → getAttribute d c "aria-controls" ≠ Some (id_of d k)).
Proof.
  intros ok σ' d. subst ok σ' d.
  unfold eval, exec, isController, bind, readDOM, when, console_error, ret.
  fold (controllerMatches w (document σ) c).
  destruct (controllerMatches w (document σ) c) eqn:Hm; cbn.
  - split; [done|]. split; [done|]. split; [|done]. intros _. split; [done|].
    destruct (isController_finds w _ c Hm) as [k Hfind].
    destruct (find_first _ _ _ Hfind) as (pre & post & Hl & Hk & Hpre).
    exists pre, k, post. split; [done|]. split; [done|].
    split; [by apply strictEq_true|].
    intros x Hx Heq. apply strictEq_true in Heq. by rewrite (Hpre x Hx) in Heq.
  - split; [done|]. split; [done|]. split; [done|]. intros _. split; [done|].
    split; [by apply existsb_find_none|].
    intros k Hk Heq. apply strictEq_true in Heq.
    apply not_true_iff_false in Hm. apply Hm, existsb_exists.
    exists k. split; [by apply list_elem_of_In | done].
Qed.

(** ** Further properties of the toggle *)

Lemma deactivate_all_quiet (w : Accordion) (l : list node) (d : DOM) :
  (∀ x, x ∈ l → validated w d x = None) → deactivate_all w l d = d.
Proof.
  induction l as [|x l IH]; intros Hl; [done|].
  change (deactivate_all w (x :: l) d) with (deactivate_all w l (deactivate_dom w x d)).
  assert (deactivate_dom w x d = d) as ->.
  { unfold deactivate_dom. by rewrite (Hl x) by (by left). }
  apply IH. intros y Hy. apply Hl. by right.
Qed.

Lemma diagnosed_validated (w : Accordion) (d : DOM) (c k : node) :
  validated w d c = Some k → diagnosed w d c = [].
Proof.
  unfold validated, diagnosed. destruct (controllerMatches w d c); [|done].
  destruct (getContainerByController w d c); [|done].
  by destruct (containerMatches w d n).
Qed.

Lemma diagnosed_all_validated (w : Accordion) (l : list node) (d : DOM) :
  (∀ x, x ∈ l → is_Some (validated w d x)) → diagnosed_all w l d = [].
Proof.
  revert d. induction l as [|x l IH]; intros d Hl; simpl; [done|].
  destruct (Hl x) as [k Hk]; [by left|].
  rewrite (diagnosed_validated w d x k Hk). simpl. apply IH.
  intros y Hy. rewrite (validated_same w d _ (sameElsewhere_deactivate_dom w x d)).
  apply Hl. by right.
Qed.

(** A member of the loop that validates ends without [aria-disabled] when
    collapsing is not allowed. *)
Lemma deactivate_all_enables (w : Accordion) (l : list node) (d : DOM) (x k : node) :
  x ∈ l → validated w d x = Some k → willToggle w d = false →
  getAttribute (deactivate_all w l d) x "aria-disabled" = None.
Proof.
  revert d. induction l as [|y l IH]; intros d Hx Hv Hw; [by apply elem_of_nil in Hx|].
  simpl. pose proof (sameElsewhere_deactivate_dom w y d) as Hs.
  destruct (decide (x = y)) as [<-|Hne].
  - destruct (collapses_deactivate_all w l l (deactivate_dom w x d)) as (_ & _ & _ & D);
      [done|].
    assert (getAttribute (deactivate_dom w x d) x "aria-disabled" = None) as Hd.
    { unfold deactivate_dom. rewrite Hv, getAttribute_deactivated, Hw. attr_cases. }
    destruct (D x) as [->|(_ & _ & ?)]; done.
  - apply IH.
    + apply elem_of_cons in Hx as [?|?]; done.
    + by rewrite (validated_same w d _ Hs).
    + by rewrite (willToggle_same w d _ Hs).
Qed.

Lemma willToggle_false_many (w : Accordion) (d : DOM) :
  willToggle w d = false → allowManyContainers w d = false.
Proof. unfold willToggle. by destruct (allowManyContainers w d). Qed.

Lemma filter_none {A} (P : A → bool) (l : list A) :
  (∀ x, x ∈ l → P x = false) → List.filter P l = [].
Proof.
  induction l as [|y l IH]; intros Hl; [done|]. simpl.
  rewrite (Hl y) by (by left). apply IH. intros x Hx. apply Hl. by right.
Qed.

Lemma filter_only (P : node → bool) (l : list node) (c : node) :
  NoDup l → c ∈ l → (∀ x, x ∈ l → P x = true ↔ x = c) → List.filter P l = [c].
Proof.
  induction l as [|y l IH]; intros Hnd Hc HP; [by apply elem_of_nil in Hc|].
  apply NoDup_cons in Hnd as [Hy Hnd]. simpl.
  destruct (decide (y = c)) as [->|Hne].
  - rewrite (proj2 (HP c (ltac:(by left))) eq_refl). f_equal.
    apply filter_none. intros x Hx. apply not_true_is_false. intros Hpx.
    apply HP in Hpx; [|by right]. by subst.
  - assert (P y = false) as ->.
    { apply not_true_is_false. intros Hpy. apply HP in Hpy; [done | by left]. }
    apply IH; [done | |].
    + apply elem_of_cons in Hc as [?|?]; done.
    + intros x Hx. apply HP. by right.
Qed.

Lemma validated_found (w : Accordion) (d : DOM) (c k : node) :
  validated w d c = Some k → getContainerByController w d c = Some k.
Proof.
  unfold validated. destruct (controllerMatches w d c); [|done].
  destruct (getContainerByController w d c) as [k'|]; [|done].
  destruct (containerMatches w d k'); [|done]. by intros [= ->].
Qed.

(** After the loop of a toggle of [c], a controller other than [c] is
    expanded only if it was expanded before and fails validation. *)
Lemma expanded_after_loop (w : Accordion) (d : DOM) (c x : node) :
  allowManyContainers w d = false → x ∈ controllers w → x ≠ c →
  isControllerExpanded (collapseOthers_dom w c d) x = true →
  isControllerExpanded d x = true ∧ validated w d x = None.
Proof.
  intros Hmany Hx Hne Hexp.
  destruct (collapses_collapseOthers w c d) as (_ & E & _).
  apply isControllerExpanded_true in Hexp.
  assert (isControllerExpanded d x = true) as Hd.
  { apply isControllerExpanded_true. destruct (E x) as [<-|[_ Hf]]; [done | congruence]. }
  split; [done|].
  destruct (validated w d x) as [kx|] eqn:Hv; [|done].
  assert (x ∈ others w d c) as Hin by (by apply elem_of_others).
  unfold collapseOthers_dom in Hexp. rewrite Hmany in Hexp. cbn [negb] in Hexp.
  destruct (deactivate_all_closes w _ d x kx Hin Hv) as [Hf _]. congruence.
Qed.

Lemma expanded_of_other (w : Accordion) (d : DOM) (c x : node) :
  x ≠ c →
  getAttribute (toggle_dom w c d) x "aria-expanded"
  = getAttribute (collapseOthers_dom w c d) x "aria-expanded".
Proof.
  intros Hne. unfold toggle_dom, activate_dom, deactivate_dom.
  destruct (negb _).
  - destruct (validated w _ c); [|done]. rewrite getAttribute_activated. attr_cases.
  - destruct (_ && _); [|done].
    destruct (validated w _ c); [|done]. rewrite getAttribute_deactivated. attr_cases.
Qed.

(** In single-open mode of a widget without repeated controllers in which
    every controller passes validation, after a toggle of a collapsed
    controller [getActiveControllers] is exactly that controller. *)
Theorem single_open_active (w : Accordion) (σ : World) (c : node) :
  NoDup (controllers w) →
  allValidated w (document σ) →
  allowManyContainers w (document σ) = false →
  c ∈ controllers w →
  isControllerExpanded (document σ) c = false →
  getActiveControllers w (document (exec (updateContainerByController w c) σ)) = [c].
Proof.
  intros Hnd Hall Hmany Hc Hexp. rewrite document_update.
  generalize dependent (document σ). intros d Hall Hmany Hexp.
  unfold allValidated in Hall. rewrite Forall_forall in Hall.
  unfold getActiveControllers. apply filter_only; [done..|].
  intros x Hx. destruct (decide (x = c)) as [->|Hne].
  - split; [done|]. intros _. destruct (Hall c Hc) as [k Hk].
    rewrite (toggle_dom_expand w d c k Hk Hexp).
    apply isControllerExpanded_true. rewrite getAttribute_activated. attr_cases.
  - split; [|done]. intros Hx'. exfalso.
    assert (isControllerExpanded (collapseOthers_dom w c d) x = true) as H1.
    { apply isControllerExpanded_true. apply isControllerExpanded_true in Hx'.
      by rewrite <- (expanded_of_other w d c x Hne). }
    destruct (expanded_after_loop w d c x Hmany Hx Hne H1) as [_ Hv].
    destruct (Hall x Hx) as [k Hk]. congruence.
Qed.

Lemma single_open_active_witness :
  getActiveControllers Sample.widget
    (document (exec (updateContainerByController Sample.widget 2)
       (exec (clicks Sample.widget [1])
          (exec (constructor None Sample.tree) (Sample.world (Sample.page []))))))
  = [2].
Proof.
  apply (single_open_active Sample.widget _ 2);
    [decided | decided | computed | member | computed].
Defined.

(** Without the toggle flag and without many-containers, a second toggle of
    the same element changes nothing in the document. *)
Theorem toggle_twice_without_flag (w : Accordion) (σ : World) (c : node) :
  willToggle w (document σ) = false →
  let σ1 := exec (updateContainerByController w c) σ in
  document (exec (updateContainerByController w c) σ1) = document σ1.
Proof.
  intros Hw σ1. subst σ1. rewrite !document_update.
  generalize dependent (document σ). intros d Hw.
  pose proof (willToggle_false_many w d Hw) as Hmany.
  pose proof (sameElsewhere_toggle_dom w c d) as Hs.
  pose proof (proj1 (collapses_collapseOthers w c d)) as Hs1.
  remember (toggle_dom w c d) as d2 eqn:Hd2.
  assert (collapseOthers_dom w c d2 = d2) as Hloop.
  { unfold collapseOthers_dom. rewrite (allowManyContainers_same w d d2 Hs), Hmany.
    cbn [negb]. apply deactivate_all_quiet. intros x Hx.
    apply elem_of_others in Hx as (Hin & Hexp & Hne).
    rewrite (validated_same w d d2 Hs).
    apply (expanded_after_loop w d c x Hmany Hin Hne).
    apply isControllerExpanded_true. apply isControllerExpanded_true in Hexp.
    by rewrite <- (expanded_of_other w d c x Hne), <- Hd2. }
  unfold toggle_dom at 1. rewrite Hloop, (willToggle_same w d d2 Hs), Hw. cbn [andb].
  destruct (isControllerExpanded d2 c) eqn:Hexp2; cbn [negb]; [done|].
  unfold activate_dom. rewrite (validated_same w d d2 Hs).
  destruct (validated w d c) as [k|] eqn:Hv; [|done].
  exfalso. apply isControllerExpanded_false in Hexp2. apply Hexp2.
  rewrite Hd2. destruct (isControllerExpanded d c) eqn:Hexp.
  - unfold toggle_dom. rewrite isControllerExpanded_collapseOthers, Hexp.
    rewrite (willToggle_same w d _ Hs1), Hw. cbn [negb andb].
    rewrite collapseOthers_keeps_target. by apply isControllerExpanded_true.
  - rewrite (toggle_dom_expand w d c k Hv Hexp), getAttribute_activated. attr_cases.
Qed.

Lemma toggle_twice_without_flag_witness :
  let σ1 := exec (updateContainerByController Stray.widget 2) Stray.opened in
  document (exec (updateContainerByController Stray.widget 2) σ1) = document σ1.
Proof. apply (toggle_twice_without_flag Stray.widget Stray.opened 2). computed. Defined.

(** Without the toggle flag, when the open pair moves from A to B (both
    passing validation), B becomes disabled and A loses [aria-disabled]. *)
Theorem disabled_follows_open_pair (w : Accordion) (σ : World) (A KA B KB : node) :
  willToggle w (document σ) = false →
  A ∈ controllers w →
  validated w (document σ) A = Some KA → validated w (document σ) B = Some KB →
  isControllerExpanded (document σ) A = true →
  isControllerExpanded (document σ) B = false →
  let d' := document (exec (updateContainerByController w B) σ) in
  isControllerDisabled d' B = true ∧ getAttribute d' A "aria-disabled" = None.
Proof.
  intros Hw HA HvA HvB HAexp HBexp d'. subst d'. rewrite document_update.
  generalize dependent (document σ). intros d Hw HvA HvB HAexp HBexp.
  assert (A ≠ B) as HAB by (intros ->; congruence).
  pose proof (willToggle_false_many w d Hw) as Hmany.
  pose proof (proj1 (collapses_collapseOthers w B d)) as Hs1.
  rewrite (toggle_dom_expand w d B KB HvB HBexp).
  unfold isControllerDisabled.
  rewrite !getAttribute_activated, (willToggle_same w d _ Hs1), Hw.
  split; [attr_cases|]. attr_cases.
  unfold collapseOthers_dom. rewrite Hmany. cbn [negb].
  apply (deactivate_all_enables w _ d A KA); [|done..].
  by apply elem_of_others.
Qed.

Lemma disabled_follows_open_pair_witness :
  let σ := exec (clicks Sample.widget [1])
             (exec (constructor None Sample.tree) (Sample.world (Sample.page []))) in
  let d' := document (exec (updateContainerByController Sample.widget 2) σ) in
  isControllerDisabled d' 2 = true ∧ getAttribute d' 1 "aria-disabled" = None.
Proof.
  intros σ. apply (disabled_follows_open_pair Sample.widget σ 1 11 2 12);
    [computed | member | computed | computed | computed | computed].
Defined.

(** When collapsing is not allowed, a toggle of an expanded element does
    nothing for that element: the world after it is the world after the
    collapse of the others, and the element keeps [aria-expanded="true"] and
    its [aria-disabled]. *)
Theorem open_stays_open (w : Accordion) (σ : World) (c : node) :
  isControllerExpanded (document σ) c = true →
  willToggle w (document σ) = false →
  let σ' := exec (updateContainerByController w c) σ in
  σ' = exec (collapseOthers w c) σ
  ∧ getAttribute (document σ') c "aria-expanded" = Some "true"
  ∧ getAttribute (document σ') c "aria-disabled"
    = getAttribute (document σ) c "aria-disabled".
Proof.
  intros Hexp Hw σ'. subst σ'.
  pose proof (collapses_collapseOthers w c (document σ)) as Hcol.
  assert (exec (updateContainerByController w c) σ = exec (collapseOthers w c) σ) as ->.
  { unfold exec, updateContainerByController, bind.
    rewrite collapseOthers_run. unfold readDOM. cbn [fst snd document].
    rewrite isControllerExpanded_collapseOthers, Hexp.
    by rewrite (willToggle_same w _ _ (proj1 Hcol)), Hw. }
  rewrite document_collapseOthers. split; [done|]. split.
  - rewrite collapseOthers_keeps_target. by apply isControllerExpanded_true.
  - apply (collapses_keeps w _ _ _ c "aria-disabled" Hcol); try done.
    left. intros Hin. apply elem_of_others in Hin. tauto.
Qed.

Lemma open_stays_open_witness :
  let σ := exec (clicks Sample.widget [1])
             (exec (constructor None Sample.tree) (Sample.world (Sample.page []))) in
  let σ' := exec (updateContainerByController Sample.widget 1) σ in
  σ' = exec (collapseOthers Sample.widget 1) σ
  ∧ getAttribute (document σ') 1 "aria-expanded" = Some "true"
  ∧ getAttribute (document σ') 1 "aria-disabled"
    = getAttribute (document σ) 1 "aria-disabled".
Proof.
  intros σ. apply (open_stays_open Sample.widget σ 1); computed.
Defined.

(** With [data-accordion-many-containers], a toggle writes at most
    [aria-expanded] on its argument and [hidden] on the container found for
    it: no other element changes and [aria-disabled] is never written. *)
Theorem many_mode_frame (w : Accordion) (σ : World) (c : node) :
  allowManyContainers w (document σ) = true →
  let d := document σ in
  let d' := document (exec (updateContainerByController w c) σ) in
  ∀ n a, getAttribute d' n a ≠ getAttribute d n a →
         (n = c ∧ a = "aria-expanded")
         ∨ (a = "hidden" ∧ getContainerByController w d c = Some n).
Proof.
  intros Hmany d d' n a. subst d d'. rewrite document_update.
  generalize dependent (document σ). intros d Hmany.
  pose proof (willToggle_many w d Hmany) as Hw.
  unfold toggle_dom. rewrite (collapseOthers_dom_many w d c Hmany).
  unfold activate_dom, deactivate_dom.
  destruct (validated w d c) as [k|] eqn:Hv.
  - apply validated_found in Hv.
    destruct (negb _); [|destruct (_ && _); [|done]].
    + rewrite getAttribute_activated, Hw. attr_cases; intros _; auto.
    + rewrite getAttribute_deactivated, Hw. attr_cases; intros _; auto.
  - destruct (negb _); [done|]. by destruct (_ && _).
Qed.

Lemma many_mode_frame_witness :
  let d := document Switched.manyOn in
  let d' := document (exec (updateContainerByController Sample.widget 2) Switched.manyOn) in
  allowManyContainers Sample.widget d = true
  ∧ ∀ n a, getAttribute d' n a ≠ getAttribute d n a →
           (n = 2 ∧ a = "aria-expanded")
           ∨ (a = "hidden" ∧ getContainerByController Sample.widget d 2 = Some n).
Proof.
  split; [computed|].
  apply (many_mode_frame Sample.widget Switched.manyOn 2). computed.
Defined.

(** A toggle expands nothing but its argument, and it unhides nothing but
    the container found for its argument, which was collapsed. *)
Theorem toggle_opens_only_target (w : Accordion) (σ : World) (c : node) :
  let d := document σ in
  let d' := document (exec (updateContainerByController w c) σ) in
  (∀ x, x ≠ c → isControllerExpanded d' x = true → isControllerExpanded d x = true)
  ∧ (∀ k, hasAttribute d k "hidden" = true → hasAttribute d' k "hidden" = false →
          getContainerByController w d c = Some k ∧ isControllerExpanded d c = false).
Proof.
  intros d d'. subst d d'. rewrite document_update.
  generalize dependent (document σ). intros d.
  destruct (collapses_collapseOthers w c d) as (Hs & E & H & _).
  split.
  - intros x Hne Hx. apply isControllerExpanded_true in Hx.
    rewrite (expanded_of_other w d c x Hne) in Hx.
    apply isControllerExpanded_true. destruct (E x) as [<-|[_ Hf]]; [done | congruence].
  - intros k Hhid Hvis. apply hasAttribute_true in Hhid. apply hasAttribute_false in Hvis.
    assert (is_Some (getAttribute (collapseOthers_dom w c d) k "hidden")) as Hhid1.
    { destruct (H k) as [->|[_ ->]]; [done | by eexists]. }
    unfold toggle_dom, activate_dom, deactivate_dom in Hvis.
    rewrite isControllerExpanded_collapseOthers, (validated_same w d _ Hs) in Hvis.
    destruct (isControllerExpanded d c) eqn:Hexp; cbn [negb] in Hvis.
    + exfalso. destruct (_ && _);
        [destruct (validated w d c) as [k'|]|]; try (rewrite Hvis in Hhid1; by destruct Hhid1).
      rewrite getAttribute_deactivated in Hvis. revert Hvis. attr_cases.
      intros Hvis. rewrite Hvis in Hhid1. by destruct Hhid1.
    + split; [|done].
      destruct (validated w d c) as [k'|] eqn:Hv;
        [|rewrite Hvis in Hhid1; by destruct Hhid1].
      apply validated_found in Hv. rewrite Hv. f_equal.
      rewrite getAttribute_activated in Hvis. revert Hvis. attr_cases.
      intros Hvis. rewrite Hvis in Hhid1. by destruct Hhid1.
Qed.

(** In a widget in which every controller passes validation, a toggle of a
    controller writes nothing to the console. *)
Theorem valid_widget_is_silent (w : Accordion) (σ : World) (c : node) :
  allValidated w (document σ) → c ∈ controllers w →
  console (exec (updateContainerByController w c) σ) = console σ.
Proof.
  intros Hall Hc. unfold allValidated in Hall. rewrite Forall_forall in Hall.
  rewrite console_update, document_collapseOthers.
  unfold exec at 1. rewrite collapseOthers_run. cbn [snd console].
  pose proof (proj1 (collapses_collapseOthers w c (document σ))) as Hs.
  assert (diagnosed w (collapseOthers_dom w c (document σ)) c = []) as Hown.
  { destruct (Hall c Hc) as [k Hk].
    apply (diagnosed_validated w _ c k). by rewrite (validated_same w _ _ Hs). }
  unfold own_log. rewrite Hown.
  assert (diagnosed_all w (others w (document σ) c) (document σ) = []) as ->.
  { apply diagnosed_all_validated. intros x Hx. apply Hall.
    by apply (others_controllers w (document σ) c). }
  repeat case_match; by rewrite !app_nil_r.
Qed.

Lemma valid_widget_is_silent_witness :
  let σ := exec (clicks Sample.widget [1])
             (exec (constructor None Sample.tree) (Sample.world (Sample.page []))) in
  console (exec (updateContainerByController Sample.widget 2) σ) = console σ.
Proof.
  intros σ. apply (valid_widget_is_silent Sample.widget σ 2); [decided | member].
Defined.

(** ** Further properties of the construction *)

Lemma run_unit (m : M unit) (σ : World) : m σ = (tt, exec m σ).
Proof. unfold exec. by destruct (m σ) as [[] σ']. Qed.

Lemma exec_forEach_cons {A} (x : A) (l : list A) (f : A → M unit) (σ : World) :
  exec (forEach (x :: l) f) σ = exec (forEach l f) (exec (f x) σ).
Proof. unfold exec. cbn [forEach]. unfold bind. by destruct (f x σ) as [[] σ1]. Qed.

Lemma exec_manage_events (w : Accordion) (c : node) (σ : World) :
  exec (manageRootEvents c w >> manageControllerEvents c w) σ
  = mkWorld (document σ) (console σ) (listeners σ ++ listenersOf c).
Proof.
  unfold exec, manageRootEvents, manageControllerEvents, bind, addEventListener, listenersOf.
  cbn. by rewrite <- !app_assoc.
Qed.

Lemma exec_processControllerEvents (w : Accordion) (σ : World) :
  exec (processControllerEvents w) σ
  = mkWorld (document σ) (console σ) (listeners σ ++ flat_map listenersOf (controllers w)).
Proof.
  unfold processControllerEvents. revert σ.
  induction (controllers w) as [|c cs IH]; intros σ.
  - destruct σ. unfold exec, ret. cbn. by rewrite app_nil_r.
  - rewrite exec_forEach_cons, exec_manage_events, IH. cbn [document console listeners flat_map].
    by rewrite <- app_assoc.
Qed.

(** Construction binds, on every controller in sequence order, the four
    listeners focus, blur, click and keydown, and no other listener; the click
    listener of a controller toggles that controller. *)
Theorem constructor_listeners (given : option Tree) (doc : Tree) (σ0 σ : World)
    (w : Accordion) :
  constructor given doc σ0 = (Ok w, σ) →
  listeners σ = listeners σ0 ++ flat_map listenersOf (controllers w).
Proof.
  unfold constructor, bind, readDOM.
  destruct (resolveRoot (document σ0) doc given) as [r|]; [|done].
  unfold initialize, bind. rewrite run_unit, exec_processControllerEvents.
  unfold defaultContainersByControllers, bind, readDOM. cbn [document].
  rewrite forEach_deactivate_run. unfold ret. by intros [= <- <-].
Qed.

Lemma constructor_listeners_witness :
  listeners (exec (constructor None Sample.tree) (Sample.world (Sample.page [])))
  = listeners (Sample.world (Sample.page [])) ++ flat_map listenersOf (controllers Sample.widget).
Proof.
  apply (constructor_listeners None Sample.tree (Sample.world (Sample.page []))).
  computed.
Defined.

(** What construction can write: [aria-expanded="false"] and the removal
    of [aria-disabled] on controllers that lack [aria-expanded] or have it
    ["false"], and [hidden=""] on containers.  Every other attribute, every
    class, every element outside the two sequences and every controller with
    another value of [aria-expanded] stays as it was. *)
Theorem constructor_frame (given : option Tree) (doc : Tree) (σ0 σ : World)
    (w : Accordion) :
  constructor given doc σ0 = (Ok w, σ) →
  let d0 := document σ0 in
  let d := document σ in
  (∀ n a, getAttribute d n a ≠ getAttribute d0 n a →
          (n ∈ controllers w ∧ defaultsToCollapsed d0 n = true
           ∧ ((a = "aria-expanded" ∧ getAttribute d n a = Some "false")
              ∨ (a = "aria-disabled" ∧ getAttribute d n a = None
                 ∧ willToggle w d0 = false)))
          ∨ (n ∈ containers w ∧ a = "hidden" ∧ getAttribute d n a = Some ""))
  ∧ (∀ n, classList (element d n) = classList (element d0 n)).
Proof.
  intros Hnew d0 d. subst d0 d.
  rewrite (document_constructor given doc σ0 σ w Hnew).
  generalize (document σ0). intros d0.
  set (L := List.filter (defaultsToCollapsed d0) (controllers w)).
  destruct (collapses_deactivate_all w L L d0 (reflexivity L)) as (Hs & E & H & D).
  assert (∀ n, n ∈ L → n ∈ controllers w ∧ defaultsToCollapsed d0 n = true) as HL.
  { intros n Hn. apply list_elem_of_In, filter_In in Hn as [Hn ?].
    by apply list_elem_of_In in Hn. }
  split; [|apply Hs]. intros n a Hne.
  destruct (decide (a = "aria-expanded")) as [->|Hne1].
  { destruct (E n) as [?|[Hin Hv]]; [done|]. left. destruct (HL n Hin). auto. }
  destruct (decide (a = "aria-disabled")) as [->|Hne2].
  { destruct (D n) as [?|(Hin & Hw & Hv)]; [done|]. left. destruct (HL n Hin).
    split; [done|]. split; [done|]. right. auto. }
  destruct (decide (a = "hidden")) as [->|Hne3].
  { destruct (H n) as [?|[Hin Hv]]; [done|]. right. auto. }
  exfalso. apply Hne, Hs. unfold written. tauto.
Qed.

Lemma constructor_frame_witness :
  let d0 := document (Sample.world Preset.markup) in
  let d := document Preset.loaded in
  (∀ n a, getAttribute d n a ≠ getAttribute d0 n a →
          (n ∈ controllers Sample.widget ∧ defaultsToCollapsed d0 n = true
           ∧ ((a = "aria-expanded" ∧ getAttribute d n a = Some "false")
              ∨ (a = "aria-disabled" ∧ getAttribute d n a = None
                 ∧ willToggle Sample.widget d0 = false)))
          ∨ (n ∈ containers Sample.widget ∧ a = "hidden" ∧ getAttribute d n a = Some ""))
  ∧ (∀ n, classList (element d n) = classList (element d0 n)).
Proof.
  apply (constructor_frame None Sample.tree (Sample.world Preset.markup) Preset.loaded
           Sample.widget).
  computed.
Defined.

Lemma constructor_distinct_witness :
  NoDup (controllers Sample.widget) ∧ NoDup (containers Sample.widget)
  ∧ (root Sample.widget ∉ controllers Sample.widget)
  ∧ (root Sample.widget ∉ containers Sample.widget).
Proof.
  apply (constructor_distinct None Sample.tree (Sample.world (Sample.page []))
           (exec (constructor None Sample.tree) (Sample.world (Sample.page [])))
           Sample.widget).
  - computed.
  - intros r Hr. vm_compute in Hr. injection Hr as <-. decided.
Defined.

Lemma collapsed_after_construction_witness :
  let σ0 := Sample.world (Sample.page []) in
  let σ := exec (constructor None Sample.tree) σ0 in
  let σ' := exec (updateContainerByController Sample.widget 2)
              (exec (updateContainerByController Sample.widget 1) σ) in
  getAttribute (document σ') 1 "aria-expanded" = Some "false"
  ∧ getAttribute (document σ') 11 "hidden" = Some "".
Proof.
  intros σ0 σ σ'.
  apply (collapsed_after_construction None Sample.tree σ0 σ σ' Sample.widget 1 11);
    [computed | decided | | is_paired | computed | computed].
  apply toggles_step; [|member].
  apply toggles_step; [|member].
  apply toggles_refl.
Defined.

(** ** The guarded variant of the second bundle *)

Lemma bundle_constructor_degrades_witness :
  ∃ w, Bundle.constructor None Bare.tree (Sample.world Bare.page)
       = (w, Sample.world Bare.page)
       ∧ Bundle.root w = None ∧ Bundle.controllers w = [] ∧ Bundle.containers w = []
       ∧ (∀ d, Bundle.allowManyContainers w d = false ∧ Bundle.willToggle w d = false)
       ∧ (∀ σ', Bundle.activateRoot w σ' = (tt, σ') ∧ Bundle.deactivateRoot w σ' = (tt, σ')).
Proof. apply (bundle_constructor_degrades Bare.tree (Sample.world Bare.page)). computed. Defined.

Lemma forEach_ext {A} (l : list A) (f g : A → M unit) (σ : World) :
  (∀ x σ', f x σ' = g x σ') → forEach l f σ = forEach l g σ.
Proof.
  intros Hfg. revert σ. induction l as [|x l IH]; intros σ; [done|].
  cbn [forEach]. unfold bind. rewrite Hfg. destruct (g x σ) as [[] σ1]. apply IH.
Qed.

(** With a root, the guarded variant is the source: its flags, its toggle
    and its root focus handlers compute the same results on the same
    widget. *)
Theorem bundle_agrees_with_source (w : Accordion) :
  (∀ d, Bundle.allowManyContainers (rooted w) d = allowManyContainers w d
        ∧ Bundle.willToggle (rooted w) d = willToggle w d)
  ∧ (∀ c σ, Bundle.updateContainerByController (rooted w) c σ
            = updateContainerByController w c σ)
  ∧ (∀ σ, Bundle.activateRoot (rooted w) σ = activateRoot w σ
          ∧ Bundle.deactivateRoot (rooted w) σ = deactivateRoot w σ).
Proof.
  split; [done|]. split; [|done].
  intros c σ.
  assert (∀ x σ', Bundle.deactivateContainerByController x (rooted w) σ'
                  = deactivateContainerByController x w σ') as Hde by done.
  unfold Bundle.updateContainerByController, updateContainerByController, collapseOthers, bind.
  unfold readDOM, when. cbn beta iota.
  change (Bundle.allowManyContainers (rooted w) (document σ))
    with (allowManyContainers w (document σ)).
  change (Bundle.getActiveControllers (rooted w) (document σ))
    with (getActiveControllers w (document σ)).
  destruct (negb (allowManyContainers w (document σ))); [|reflexivity].
  rewrite (forEach_ext _ _ _ σ Hde).
  destruct (forEach _ _ σ) as [[] σ1]. reflexivity.
Qed.

(** Construction agrees as well whenever the source constructs a widget. *)
Theorem bundle_constructor_agrees (given : option Tree) (doc : Tree) (σ0 σ : World)
    (w : Accordion) :
  constructor given doc σ0 = (Ok w, σ) →
  Bundle.constructor given doc σ0 = (rooted w, σ).
Proof.
  unfold constructor, Bundle.constructor, bind, readDOM.
  destruct (resolveRoot (document σ0) doc given) as [r|]; [|done].
  set (w0 := mkAccordion _ _ _).
  change (Bundle.mkAccordion _ _ _) with (rooted w0).
  assert (∀ σ', Bundle.initialize (rooted w0) σ' = initialize w0 σ') as ->.
  { intros σ'. unfold Bundle.initialize, initialize, bind.
    assert (Bundle.processControllerEvents (rooted w0) σ' = processControllerEvents w0 σ')
      as -> by done.
    destruct (processControllerEvents w0 σ') as [[] σ1].
    unfold Bundle.defaultContainersByControllers, defaultContainersByControllers, bind, readDOM.
    by apply forEach_ext. }
  destruct (initialize w0 σ0) as [[] σ1]. unfold ret. by intros [= <- <-].
Qed.

Lemma bundle_constructor_agrees_witness :
  Bundle.constructor None Sample.tree (Sample.world (Sample.page []))
  = (rooted Sample.widget,
     exec (constructor None Sample.tree) (Sample.world (Sample.page []))).
Proof.
  apply (bundle_constructor_agrees None Sample.tree (Sample.world (Sample.page []))).
  computed.
Defined.

(** The inert widget of the guarded variant: a toggle of any element leaves
    the document and the listeners alone; it reports a validation failure
    when the element is not marked expanded and nothing otherwise. *)
Theorem inert_toggle (c : node) (σ : World) :
  Bundle.updateContainerByController inert c σ
  = (tt, mkWorld (document σ)
           (console σ ++ (if isControllerExpanded (document σ) c then []
                          else [ControllerMismatch c]))
           (listeners σ)).
Proof.
  destruct σ as [d log ls].
  unfold Bundle.updateContainerByController, Bundle.activateContainerByController,
    Bundle.deactivateContainerByController, Bundle.isController, bind, readDOM, when, ret,
    console_error.
  cbn. destruct (isControllerExpanded d c); cbn; by rewrite ?app_nil_r.
Qed.

(** ** The two switches of the page script *)

(** The switches of [app.ts] write exactly the flag that the widget reads:
    after the many-containers switch [allowManyContainers] is the state of
    the checkbox, and [willToggle] is the disjunction of the two flags; no
    other attribute of any element changes, and without an accordion
    element the switches do nothing. *)
Theorem page_switches (w : Accordion) (σ : World) (checked : bool) :
  let d := document σ in
  let σt := exec (toggleAccordionToggleState (Some (root w)) checked) σ in
  let σm := exec (toggleAccordionContainerState (Some (root w)) checked) σ in
  allowManyContainers w (document σm) = checked
  ∧ willToggle w (document σm)
    = (checked || hasAttribute d (root w) "data-accordion-toggle")
  ∧ allowManyContainers w (document σt) = allowManyContainers w d
  ∧ willToggle w (document σt) = (allowManyContainers w d || checked)
  ∧ (∀ n a, ¬ (n = root w ∧ a = "data-accordion-toggle") →
            getAttribute (document σt) n a = getAttribute d n a)
  ∧ (∀ n a, ¬ (n = root w ∧ a = "data-accordion-many-containers") →
            getAttribute (document σm) n a = getAttribute d n a)
  ∧ exec (toggleAccordionToggleState None checked) σ = σ
  ∧ exec (toggleAccordionContainerState None checked) σ = σ.
Proof.
  intros d σt σm. subst d σt σm.
  unfold exec, toggleAccordionToggleState, toggleAccordionContainerState, writeDOM, ret,
    willToggle, allowManyContainers, hasAttribute.
  destruct checked; cbn [snd document];
    rewrite ?getAttribute_setAttribute, ?getAttribute_removeAttribute;
    repeat split;
    try (intros n a Hna;
         rewrite ?getAttribute_setAttribute, ?getAttribute_removeAttribute;
         by rewrite decide_False by done);
    attr_cases; by repeat case_match.
Qed.

(** ** Constructing a second time *)

Lemma matchesSelector_same (d d' : DOM) (selector : string) (n : node) :
  (∀ m, classList (element d' m) = classList (element d m)) →
  matchesSelector d' selector n = matchesSelector d selector n.
Proof.
  intros Hc. unfold matchesSelector, hasClass.
  destruct selector as [|[[] [] [] [] [] [] [] []] cls]; try done. by rewrite Hc.
Qed.

Lemma resolveRoot_same (d d' : DOM) (doc : Tree) (given : option Tree) :
  (∀ m, classList (element d' m) = classList (element d m)) →
  resolveRoot d' doc given = resolveRoot d doc given.
Proof.
  intros Hc. unfold resolveRoot, querySelector. destruct given; [done|].
  induction (subtrees doc) as [|t ts IH]; [done|]. cbn [List.find].
  by rewrite (matchesSelector_same d d' _ _ Hc), IH.
Qed.

Lemma querySelectorAll_same (d d' : DOM) (t : Tree) (selector : string) :
  (∀ m, classList (element d' m) = classList (element d m)) →
  querySelectorAll d' t selector = querySelectorAll d t selector.
Proof.
  intros Hc. unfold querySelectorAll.
  induction (descendants t) as [|x xs IH]; [done|]. cbn [List.filter].
  by rewrite (matchesSelector_same d d' _ _ Hc), IH.
Qed.

Lemma classes_constructor (given : option Tree) (doc : Tree) (σ0 σ : World)
    (w : Accordion) :
  constructor given doc σ0 = (Ok w, σ) →
  ∀ n, classList (element (document σ) n) = classList (element (document σ0) n).
Proof.
  intros Hnew. rewrite (document_constructor given doc σ0 σ w Hnew).
  set (L := List.filter (defaultsToCollapsed (document σ0)) (controllers w)).
  destruct (collapses_deactivate_all w L L (document σ0) (reflexivity L)) as (Hs & _).
  apply Hs.
Qed.

Lemma listeners_constructor (given : option Tree) (doc : Tree) (σ0 σ : World)
    (w : Accordion) :
  constructor given doc σ0 = (Ok w, σ) →
  listeners σ = listeners σ0 ++ flat_map listenersOf (controllers w).
Proof.
  unfold constructor, bind, readDOM.
  destruct (resolveRoot (document σ0) doc given) as [r|]; [|done].
  unfold initialize, bind. rewrite run_unit, exec_processControllerEvents.
  unfold defaultContainersByControllers, bind, readDOM. cbn [document].
  rewrite forEach_deactivate_run. unfold ret. by intros [= <- <-].
Qed.

(** A loop of deactivations over controllers that already rest collapsed
    writes the values that are there. *)
Lemma deactivate_all_fixed (w : Accordion) (l : list node) (d : DOM) :
  (∀ x k, x ∈ l → validated w d x = Some k →
          getAttribute d x "aria-expanded" = Some "false"
          ∧ getAttribute d k "hidden" = Some ""
          ∧ (willToggle w d = false → getAttribute d x "aria-disabled" = None)) →
  ∀ n a, getAttribute (deactivate_all w l d) n a = getAttribute d n a.
Proof.
  revert d. induction l as [|x l IH]; intros d Hl n a; [done|].
  change (deactivate_all w (x :: l) d) with (deactivate_all w l (deactivate_dom w x d)).
  pose proof (sameElsewhere_deactivate_dom w x d) as Hs.
  assert (∀ m b, getAttribute (deactivate_dom w x d) m b = getAttribute d m b) as Hone.
  { intros m b. unfold deactivate_dom.
    destruct (validated w d x) as [k|] eqn:Hv; [|done].
    destruct (Hl x k) as (He & Hh & Hd); [by left|done|].
    rewrite getAttribute_deactivated.
    destruct (willToggle w d) eqn:Hw;
      repeat case_decide; destruct_and?; simplify_eq; try done.
    symmetry. by apply Hd. }
  rewrite IH; [apply Hone|].
  intros y k Hy Hv. rewrite (validated_same w d _ Hs) in Hv.
  rewrite !Hone, (willToggle_same w d _ Hs). apply Hl; [by right|done].
Qed.

(** Constructing the widget a second time on the page the first construction
    left finds the same root, controllers and containers, changes no
    attribute and no class, and binds every listener a second time. *)
Theorem constructor_twice (given : option Tree) (doc : Tree) (σ0 σ1 : World)
    (w : Accordion) :
  constructor given doc σ0 = (Ok w, σ1) →
  ∃ σ2, constructor given doc σ1 = (Ok w, σ2)
        ∧ sameElements (document σ1) (document σ2)
        ∧ listeners σ2 = listeners σ0 ++ flat_map listenersOf (controllers w)
                                      ++ flat_map listenersOf (controllers w).
Proof.
  intros Hnew.
  pose proof (classes_constructor given doc σ0 σ1 w Hnew) as Hc.
  assert (∃ σ2, constructor given doc σ1 = (Ok w, σ2)) as [σ2 Hagain].
  { revert Hnew. unfold constructor, bind, readDOM.
    rewrite (resolveRoot_same (document σ0) (document σ1) doc given Hc).
    destruct (resolveRoot (document σ0) doc given) as [r|]; [|done].
    rewrite !(querySelectorAll_same (document σ0) (document σ1) _ _ Hc).
    destruct (initialize _ σ0) as [[] σa]. unfold ret. intros [= <- _].
    destruct (initialize _ σ1) as [[] σb]. by eexists. }
  exists σ2. split; [done|]. split; [split|].
  - rewrite (document_constructor given doc σ1 σ2 w Hagain).
    rewrite (document_constructor given doc σ0 σ1 w Hnew).
    clear Hc. generalize (document σ0). intros d0.
    set (L := List.filter (defaultsToCollapsed d0) (controllers w)).
    destruct (collapses_deactivate_all w L L d0 (reflexivity L)) as (Hs & E & _ & _).
    apply deactivate_all_fixed. intros x k Hx Hv.
    rewrite (validated_same w d0 _ Hs) in Hv.
    rewrite (willToggle_same w d0 _ Hs).
    assert (x ∈ L) as HxL.
    { destruct (E x) as [Heq|[? _]]; [|done].
      apply list_elem_of_In, filter_In in Hx as [Hx Hdef].
      apply list_elem_of_In, filter_In. split; [done|].
      revert Hdef. unfold defaultsToCollapsed, hasAttribute. by rewrite Heq. }
    destruct (deactivate_all_closes w L d0 x k HxL Hv) as [He Hh].
    split; [done|]. split; [done|]. intros Hw.
    by apply (deactivate_all_enables w L d0 x k).
  - apply (classes_constructor given doc σ1 σ2 w Hagain).
  - rewrite (listeners_constructor given doc σ1 σ2 w Hagain),
      (listeners_constructor given doc σ0 σ1 w Hnew). by rewrite <-app_assoc.
Qed.

Lemma constructor_twice_witness :
  ∃ σ2, constructor None Sample.tree Preset.loaded = (Ok Sample.widget, σ2)
        ∧ sameElements (document Preset.loaded) (document σ2)
        ∧ listeners σ2 = listeners (Sample.world Preset.markup)
                         ++ flat_map listenersOf (controllers Sample.widget)
                         ++ flat_map listenersOf (controllers Sample.widget).
Proof.
  apply (constructor_twice None Sample.tree (Sample.world Preset.markup) Preset.loaded
           Sample.widget).
  computed.
Defined.
